(** * The MAAS machine-resources reporter (src/machine-resources.go)

    A shallow embedding of the command's [main] function and of the
    process it runs in: what it writes to each output stream, in which
    order it calls its collaborators, and how it exits. *)

From Stdlib Require Import String Ascii List ZArith NArith Lia Bool Arith.
From Stdlib Require Import DecimalString DecimalZ DecimalPos.
Import ListNotations.

Set Warnings "-register-all".

Local Open Scope string_scope.

(** ** Go text and the [error] interface *)

(** The one-byte strings Go writes as a backslash followed by n or by t:
    line feed and tab. *)
Definition LF : string := String "010" EmptyString.
Definition TAB : string := String "009" EmptyString.

(** A value of Go's [error] interface: the dynamic type behind the
    interface and what its [Error()] method returns. *)
Record error : Type := mkError { dynamic_type : string; Error : string }.

(** ** The process: its environment, its trace and its outcome *)

Inductive fd : Type := Stdout | Stderr.

(** What the process does that the outside can observe, in order. *)
Inductive event : Type :=
| EvGetResources
| EvMarshalIndent (prefix indent : string)
| EvWrite (f : fd) (text : string)
| EvExit (code : Z).

Definition trace := list event.

(** What a run is started with: its argument vector ([os.Args]) and what
    the host's enumeration facility answers, as the Go pair
    [(resources, err)], a pointer to an [api.Resources] and an [error]. *)
Record Env (Resources : Type) : Type := mkEnv {
  os_Args : list string;
  facility : Resources * option error
}.
Arguments mkEnv {Resources} _ _.
Arguments os_Args {Resources} _.
Arguments facility {Resources} _.

(** How a computation ends: it returns to its caller, or the process has
    exited with a status, or the computation left the modelled fragment
    of the [fmt] package. *)
Inductive result (A : Type) : Type :=
| Returned (a : A) (t : trace)
| Exited (code : Z) (t : trace)
| Unmodelled.
Arguments Returned {A} _ _.
Arguments Exited {A} _ _.
Arguments Unmodelled {A}.

Definition proc (Resources A : Type) : Type := Env Resources -> trace -> result A.

Definition ret {R A} (a : A) : proc R A := fun _ t => Returned a t.

Definition bind {R A B} (m : proc R A) (k : A -> proc R B) : proc R B :=
  fun env t =>
    match m env t with
    | Returned a t' => k a env t'
    | Exited code t' => Exited code t'
    | Unmodelled => Unmodelled
    end.

Declare Scope proc_scope.
Delimit Scope proc_scope with proc.
Notation "x <- m ;; k" := (bind m (fun x => k))
  (at level 61, m at next level, right associativity) : proc_scope.
Notation "' pat <- m ;; k" := (bind m (fun x => match x with pat => k end))
  (at level 61, pat pattern, m at next level, right associativity) : proc_scope.
Notation "m ;; k" := (bind m (fun _ => k))
  (at level 61, right associativity) : proc_scope.

Definition emit {R} (e : event) : proc R unit := fun _ t => Returned tt (t ++ [e])%list.

(** Go's [if err != nil { ... }]: the body runs when the error is not nil. *)
Definition if_not_nil {R} (err : option error) (body : error -> proc R unit) : proc R unit :=
  match err with
  | Some e => body e
  | None => ret tt
  end.

(** The bytes a trace left on a stream. *)
Fixpoint written (f : fd) (t : trace) : string :=
  match t with
  | [] => EmptyString
  | EvWrite Stdout text :: t' =>
      match f with Stdout => text ++ written f t' | Stderr => written f t' end
  | EvWrite Stderr text :: t' =>
      match f with Stderr => text ++ written f t' | Stdout => written f t' end
  | _ :: t' => written f t'
  end.

Definition trace_of {A} (r : result A) : trace :=
  match r with
  | Returned _ t => t
  | Exited _ t => t
  | Unmodelled => []
  end.

Definition stdout {A} (r : result A) : string := written Stdout (trace_of r).
Definition stderr {A} (r : result A) : string := written Stderr (trace_of r).

(** The status the operating system sees: [main] returning is status 0. *)
Definition exit_status {A} (r : result A) : option Z :=
  match r with
  | Returned _ _ => Some 0%Z
  | Exited code _ => Some code
  | Unmodelled => None
  end.

(** ** Package fmt: the verbs [main] uses *)

Module fmt.

(** An operand of a formatting call ([interface{}] in Go): [main]
    passes an [error] and a [[]byte]. *)
Inductive any : Type :=
| AnyError (e : error)
| AnyBytes (b : string).

Inductive verb : Type := VerbV | VerbS.

Definition verb_of (c : ascii) : option verb :=
  if Ascii.eqb c "v" then Some VerbV
  else if Ascii.eqb c "s" then Some VerbS
  else None.

(** [%v] on a byte slice prints the bytes in decimal between brackets. *)
Fixpoint bytes_decimal (b : string) : string :=
  match b with
  | EmptyString => EmptyString
  | String c EmptyString => NilZero.string_of_uint (Nat.to_uint (nat_of_ascii c))
  | String c rest =>
      NilZero.string_of_uint (Nat.to_uint (nat_of_ascii c)) ++ " " ++ bytes_decimal rest
  end.

(** [printArg]: an operand that is an [error] is printed through its
    [Error()] method under both verbs; a byte slice is printed as text
    under [%s] and as a list of numbers under [%v]. *)
Definition printArg (arg : any) (v : verb) : string :=
  match arg, v with
  | AnyError e, _ => Error e
  | AnyBytes b, VerbS => b
  | AnyBytes b, VerbV => "[" ++ bytes_decimal b ++ "]"
  end.

(** [doPrintf] on the fragment of format strings made of literal bytes,
    [%%], [%v] and [%s], with exactly one operand per verb.  [None]
    stands for a call outside that fragment (another verb, a flag, a
    missing or an extra operand). *)
Fixpoint doPrintf (format : string) (a : list any) : option string :=
  match format with
  | EmptyString =>
      match a with
      | [] => Some EmptyString
      | _ :: _ => None
      end
  | String c rest =>
      if Ascii.eqb c "%" then
        match rest with
        | EmptyString => None
        | String c' rest' =>
            if Ascii.eqb c' "%" then option_map (String "%") (doPrintf rest' a)
            else
              match verb_of c', a with
              | Some v, arg :: a' =>
                  option_map (append (printArg arg v)) (doPrintf rest' a')
              | _, _ => None
              end
        end
      else option_map (String c) (doPrintf rest a)
  end.

Definition Sprintf (format : string) (a : list any) : option string :=
  doPrintf format a.

(** [fmt.Printf(format, a...)]: formats, then writes the text to
    standard output in one write. *)
Definition Printf {R} (format : string) (a : list any) : proc R unit :=
  match Sprintf format a with
  | Some text => emit (EvWrite Stdout text)
  | None => fun _ _ => Unmodelled
  end.
End fmt.

(** ** The collaborators [main] calls *)

(** Package encoding/json as [main] sees it: a function from the snapshot
    and the two layout strings to the Go pair [([]byte, error)]. *)
Class Serializer (Resources : Type) : Type :=
  marshal_indent : Resources -> string -> string -> string * option error.

Module resources.
(** [resources.GetResources()]: asks the host, which answers with what
    the run's environment holds. *)
Definition GetResources {R} : proc R (R * option error) :=
  fun env t => Returned (facility env) (t ++ [EvGetResources])%list.
End resources.

Module json.
(** The call [json.MarshalIndent(v, prefix, indent)]. *)
Definition MarshalIndent {R} `{Serializer R} (v : R) (prefix indent : string)
  : proc R (string * option error) :=
  fun env t => Returned (marshal_indent v prefix indent) (t ++ [EvMarshalIndent prefix indent])%list.
End json.

Module os.
(** [os.Exit(code)] ends the process at once: nothing after it runs. *)
Definition Exit {R A} (code : Z) : proc R A :=
  fun _ t => Exited code (t ++ [EvExit code])%list.
End os.

(** ** The program *)

Section Program.
Context {Resources : Type} `{Serializer Resources}.
Local Open Scope proc_scope.

Definition main : proc Resources unit :=
  '(resources, err) <- resources.GetResources ;;
  if_not_nil err (fun err =>
    fmt.Printf ("error: %v" ++ LF) [fmt.AnyError err] ;;
    os.Exit 1) ;;
  '(data, err) <- json.MarshalIndent resources EmptyString TAB ;;
  if_not_nil err (fun err =>
    fmt.Printf ("error: %v" ++ LF) [fmt.AnyError err] ;;
    os.Exit 1) ;;
  fmt.Printf ("%s" ++ LF) [fmt.AnyBytes data].

(** A run of the program: [main] started on an empty trace. *)
Definition run (env : Env Resources) : result unit := main env [].
End Program.

(** ** Package encoding/json *)

(** Modelled from the spec: the generic structured serializer the program
    forwards the snapshot to ([json.MarshalIndent] of Go's standard
    library, whose code is not part of this repository) and the JSON
    reader the round-trip properties speak of.  The spec fixes that the
    output is UTF-8 text and valid JSON, pretty-printed with tab
    indentation, that a snapshot holding a value the serializer cannot
    represent makes it fail, and that stripping the indentation leaves
    the same logical value.  The layout is the one [MarshalIndent]
    produces: one element per line, a space after each colon, empty
    containers closed at once.  Numbers are integers.  Strings are Go
    strings, that is byte strings: the serializer writes them as JSON
    strings coerced to valid UTF-8, every byte that is not part of a
    well-formed sequence replaced by the replacement character U+FFFD.
    This is what the library documents for strings, and what makes the
    output UTF-8 text, as the spec has it, whatever the snapshot holds.

    The serializer ([encode]) walks the Go value and writes text.  What
    the claims compare its output with is defined apart from it: the
    document a value is structurally equivalent to ([structure]). *)

Module encoding_json.

(** *** JSON documents and the Go values that are serialized *)

Inductive document : Type :=
| Null
| Bool (b : bool)
| Number (n : Z)
| Str (s : string)
| Array (items : list document)
| Object (members : list (string * document)).

(** A Go value as the serializer's reflection walks it.  [VUnsupported]
    stands for a value of a type JSON cannot represent (a channel, a
    function, a complex number); it carries the name of that type.
    [VMarshaler] stands for a value of a type with a [MarshalJSON]
    method of its own, whose call fails with the error given. *)
Inductive value : Type :=
| VNil
| VBool (b : bool)
| VInt (n : Z)
| VString (s : string)
| VSlice (items : list value)
| VStruct (fields : list (string * value))
| VPointer (target : value)
| VUnsupported (type : string)
| VMarshaler (type : string) (failure : error).

Definition UnsupportedTypeError (type : string) : error :=
  mkError "*json.UnsupportedTypeError" ("json: unsupported type: " ++ type).

Definition MarshalerError (type : string) (failure : error) : error :=
  mkError "*json.MarshalerError"
    ("json: error calling MarshalJSON for type " ++ type ++ ": " ++ Error failure).

(** *** Structural equivalence *)

Section Sequence.
Context {A : Type}.

(** The items of a list when every one of them is there. *)
Fixpoint all_some (l : list (option A)) : option (list A) :=
  match l with
  | [] => Some []
  | None :: _ => None
  | Some x :: l' => option_map (cons x) (all_some l')
  end.
End Sequence.

(** Modelled from the spec: the JSON document a snapshot is structurally
    equivalent to.  A nil is null, a boolean, an integer and a string
    are themselves, a slice is the array of its items in order, a
    structure is the object of its fields in order under their names, a
    pointer is what it points to.  A snapshot that holds a value JSON
    cannot represent is equivalent to no document. *)
Fixpoint structure (v : value) : option document :=
  match v with
  | VNil => Some Null
  | VBool b => Some (Bool b)
  | VInt n => Some (Number n)
  | VString s => Some (Str s)
  | VSlice items => option_map Array (all_some (map structure items))
  | VStruct fields =>
      option_map Object
        (all_some (map (fun kv => option_map (pair (fst kv)) (structure (snd kv))) fields))
  | VPointer target => structure target
  | VUnsupported _ => None
  | VMarshaler _ _ => None
  end.

(** *** Characters *)

Definition BACKSLASH : ascii := "092"%char.
Definition DQUOTE : ascii := "034"%char.

Definition is_ws (c : ascii) : bool :=
  Ascii.eqb c " " || Ascii.eqb c "009" || Ascii.eqb c "010" || Ascii.eqb c "013".

Definition is_digit (c : ascii) : bool :=
  (48 <=? N_of_ascii c)%N && (N_of_ascii c <=? 57)%N.

Fixpoint all_ws (s : string) : bool :=
  match s with
  | EmptyString => true
  | String c r => is_ws c && all_ws r
  end.

Fixpoint skip_ws (s : string) : string :=
  match s with
  | EmptyString => EmptyString
  | String c r => if is_ws c then skip_ws r else s
  end.

(** *** UTF-8 *)

Definition between (lo hi : N) (c : ascii) : bool :=
  (lo <=? N_of_ascii c)%N && (N_of_ascii c <=? hi)%N.

(** A byte of the ASCII range: a code point of its own. *)
Definition is_ascii (c : ascii) : bool := (N_of_ascii c <? 128)%N.

Definition continuation (c : ascii) : bool := between 128 191 c.

(** The well-formed sequences of two, three and four bytes: the leading
    byte gives the length and the range of the second byte, so that no
    code point is written longer than needed, none is a surrogate and
    none is above U+10FFFF. *)
Definition two_bytes (c c1 : ascii) : bool :=
  between 194 223 c && continuation c1.

Definition three_bytes (c c1 c2 : ascii) : bool :=
  (Ascii.eqb c "224" && between 160 191 c1
   || (between 225 236 c || between 238 239 c) && continuation c1
   || Ascii.eqb c "237" && between 128 159 c1)
  && continuation c2.

Definition four_bytes (c c1 c2 c3 : ascii) : bool :=
  (Ascii.eqb c "240" && between 144 191 c1
   || between 241 243 c && continuation c1
   || Ascii.eqb c "244" && between 128 143 c1)
  && continuation c2 && continuation c3.

(** What the decoding loop of the serializer finds at the head of a
    text: an ASCII byte, a well-formed sequence, or a byte that starts
    none. *)
Inductive piece : Type :=
| Ascii7 (c : ascii)
| Rune2 (c c1 : ascii)
| Rune3 (c c1 c2 : ascii)
| Rune4 (c c1 c2 c3 : ascii)
| Invalid (c : ascii).

(** The loop: after a well-formed sequence it goes on behind the
    sequence, after a byte that starts none it goes on at the next byte. *)
Fixpoint pieces (s : string) : list piece :=
  match s with
  | EmptyString => []
  | String c r =>
      if is_ascii c then Ascii7 c :: pieces r
      else
        match r with
        | String c1 r1 =>
            if two_bytes c c1 then Rune2 c c1 :: pieces r1
            else
              match r1 with
              | String c2 r2 =>
                  if three_bytes c c1 c2 then Rune3 c c1 c2 :: pieces r2
                  else
                    match r2 with
                    | String c3 r3 =>
                        if four_bytes c c1 c2 c3 then Rune4 c c1 c2 c3 :: pieces r3
                        else Invalid c :: pieces r
                    | EmptyString => Invalid c :: pieces r
                    end
              | EmptyString => Invalid c :: pieces r
              end
        | EmptyString => Invalid c :: pieces r
        end
  end.

Definition is_invalid (p : piece) : bool :=
  match p with
  | Invalid _ => true
  | _ => false
  end.

Definition valid_utf8 (s : string) : bool := forallb (fun p => negb (is_invalid p)) (pieces s).

(** The replacement character U+FFFD, in UTF-8. *)
Definition REPLACEMENT : string :=
  String "239" (String "191" (String "189" EmptyString)).

Definition coerced_piece (p : piece) : string :=
  match p with
  | Ascii7 c => String c EmptyString
  | Rune2 c c1 => String c (String c1 EmptyString)
  | Rune3 c c1 c2 => String c (String c1 (String c2 EmptyString))
  | Rune4 c c1 c2 c3 => String c (String c1 (String c2 (String c3 EmptyString)))
  | Invalid _ => REPLACEMENT
  end.

Section Pieces.
Context (text : piece -> string).

Fixpoint join (l : list piece) : string :=
  match l with
  | [] => EmptyString
  | p :: l' => text p ++ join l'
  end.
End Pieces.

(** A text coerced to valid UTF-8: every byte that starts no well-formed
    sequence is replaced by the replacement character. *)
Definition to_valid_utf8 (s : string) : string := join coerced_piece (pieces s).

(** A document with its strings and its member names coerced to valid
    UTF-8. *)
Fixpoint coerced (d : document) : document :=
  match d with
  | Null => Null
  | Bool b => Bool b
  | Number n => Number n
  | Str s => Str (to_valid_utf8 s)
  | Array items => Array (map coerced items)
  | Object members =>
      Object (map (fun m => (to_valid_utf8 (fst m), coerced (snd m))) members)
  end.

(** A document all of whose strings and member names are valid UTF-8. *)
Fixpoint utf8_document (d : document) : bool :=
  match d with
  | Str s => valid_utf8 s
  | Array items => forallb utf8_document items
  | Object members =>
      forallb (fun m => valid_utf8 (fst m) && utf8_document (snd m)) members
  | _ => true
  end.

(** *** String literals *)

Definition hex_digit (n : N) : ascii :=
  match String.get (N.to_nat n) "0123456789abcdef" with
  | Some c => c
  | None => "0"%char
  end.

Definition hex_value (c : ascii) : option N :=
  let n := N_of_ascii c in
  if is_digit c then Some (n - 48)%N
  else if (97 <=? n)%N && (n <=? 102)%N then Some (n - 87)%N
  else if (65 <=? n)%N && (n <=? 70)%N then Some (n - 55)%N
  else None.

(** The escape of the replacement character U+FFFD. *)
Definition REPLACEMENT_ESCAPE : string := String BACKSLASH "ufffd".

(** How the serializer writes one byte that is a character of its own:
    the quote and the backslash behind a backslash, line feed, carriage
    return and tab by their letter, the other control bytes and the
    three HTML-sensitive bytes as a six-byte unicode escape, every other
    ASCII byte as itself.  A byte outside ASCII is no character of its
    own: it is written as the escape of the replacement character. *)
Definition escape_char (c : ascii) : string :=
  let n := N_of_ascii c in
  if Ascii.eqb c DQUOTE || Ascii.eqb c BACKSLASH then String BACKSLASH (String c EmptyString)
  else if Ascii.eqb c "010" then String BACKSLASH "n"
  else if Ascii.eqb c "013" then String BACKSLASH "r"
  else if Ascii.eqb c "009" then String BACKSLASH "t"
  else if (n <? 32)%N || Ascii.eqb c "<" || Ascii.eqb c ">" || Ascii.eqb c "&" then
    String BACKSLASH
      (String "u" (String "0" (String "0"
         (String (hex_digit (n / 16)) (String (hex_digit (n mod 16)) EmptyString)))))
  else if is_ascii c then String c EmptyString
  else REPLACEMENT_ESCAPE.

(** The line separator U+2028 and the paragraph separator U+2029, in
    UTF-8: the bytes 226, 128 and 168 or 169. *)
Definition is_separator (c c1 c2 : ascii) : bool :=
  Ascii.eqb c "226" && Ascii.eqb c1 "128" && (Ascii.eqb c2 "168" || Ascii.eqb c2 "169").

(** How the serializer writes one piece of a string: a byte on its own
    as above (an ASCII byte, or a byte that starts no well-formed
    sequence, which becomes the escape of U+FFFD), the two separators as
    unicode escapes, every other sequence as its bytes. *)
Definition escape_piece (p : piece) : string :=
  match p with
  | Ascii7 c => escape_char c
  | Rune3 c c1 c2 =>
      if is_separator c c1 c2 then
        String BACKSLASH
          (String "u" (String "2" (String "0" (String "2"
             (String (if Ascii.eqb c2 "168" then "8" else "9")%char EmptyString)))))
      else coerced_piece p
  | Invalid c => escape_char c
  | _ => coerced_piece p
  end.

Definition escape (s : string) : string := join escape_piece (pieces s).

Definition quote (s : string) : string :=
  String DQUOTE (escape s ++ String DQUOTE EmptyString).

(** The byte a one-letter escape stands for. *)
Definition unescape (c : ascii) : option ascii :=
  if Ascii.eqb c DQUOTE then Some DQUOTE
  else if Ascii.eqb c BACKSLASH then Some BACKSLASH
  else if Ascii.eqb c "/" then Some "/"%char
  else if Ascii.eqb c "b" then Some "008"%char
  else if Ascii.eqb c "f" then Some "012"%char
  else if Ascii.eqb c "n" then Some "010"%char
  else if Ascii.eqb c "r" then Some "013"%char
  else if Ascii.eqb c "t" then Some "009"%char
  else None.

(** The code points that UTF-16 uses for its pairs: they stand for no
    character of their own. *)
Definition high_surrogate (n : N) : bool := (55296 <=? n)%N && (n <? 56320)%N.
Definition low_surrogate (n : N) : bool := (56320 <=? n)%N && (n <? 57344)%N.

(** The code point a pair of surrogates stands for. *)
Definition surrogate_pair (high low : N) : N :=
  (65536 + (high - 55296) * 1024 + (low - 56320))%N.

(** UTF-8 for a code point; for a surrogate, the replacement character. *)
Definition utf8 (n : N) : string :=
  if (n <? 128)%N then String (ascii_of_N n) EmptyString
  else if (n <? 2048)%N then
    String (ascii_of_N (192 + n / 64))
      (String (ascii_of_N (128 + n mod 64)) EmptyString)
  else if high_surrogate n || low_surrogate n then REPLACEMENT
  else if (n <? 65536)%N then
    String (ascii_of_N (224 + n / 4096))
      (String (ascii_of_N (128 + (n / 64) mod 64))
         (String (ascii_of_N (128 + n mod 64)) EmptyString))
  else
    String (ascii_of_N (240 + n / 262144))
      (String (ascii_of_N (128 + (n / 4096) mod 64))
         (String (ascii_of_N (128 + (n / 64) mod 64))
            (String (ascii_of_N (128 + n mod 64)) EmptyString))).

Definition hex4 (h1 h2 h3 h4 : ascii) : option N :=
  match hex_value h1, hex_value h2, hex_value h3, hex_value h4 with
  | Some a, Some b, Some c, Some d => Some (((a * 16 + b) * 16 + c) * 16 + d)%N
  | _, _, _, _ => None
  end.

Definition prepend (s : string) (r : option (string * string)) : option (string * string) :=
  match r with
  | Some (body, rest) => Some (s ++ body, rest)
  | None => None
  end.

(** Reads a string literal whose opening quote has been consumed: the
    bytes its escapes and its other bytes stand for, and the text after
    its closing quote.  A unicode escape stands for the UTF-8 of its
    code point; the escape of a high surrogate followed by the escape of
    a low one stands for the code point of the pair, and a surrogate
    without its partner for the replacement character. *)
Fixpoint unquote (s : string) : option (string * string) :=
  match s with
  | EmptyString => None
  | String c r =>
      if Ascii.eqb c DQUOTE then Some (EmptyString, r)
      else if Ascii.eqb c BACKSLASH then
        match r with
        | EmptyString => None
        | String e r1 =>
            if Ascii.eqb e "u" then
              match r1 with
              | String h1 (String h2 (String h3 (String h4 r2))) =>
                  match hex4 h1 h2 h3 h4 with
                  | Some n =>
                      if high_surrogate n then
                        match r2 with
                        | String b (String u (String k1 (String k2 (String k3 (String k4 r3))))) =>
                            match (if Ascii.eqb b BACKSLASH && Ascii.eqb u "u"
                                   then hex4 k1 k2 k3 k4 else None) with
                            | Some n' =>
                                if low_surrogate n'
                                then prepend (utf8 (surrogate_pair n n')) (unquote r3)
                                else prepend REPLACEMENT (unquote r2)
                            | None => prepend REPLACEMENT (unquote r2)
                            end
                        | _ => prepend REPLACEMENT (unquote r2)
                        end
                      else prepend (utf8 n) (unquote r2)
                  | None => None
                  end
              | _ => None
              end
            else
              match unescape e with
              | Some c' => prepend (String c' EmptyString) (unquote r1)
              | None => None
              end
        end
      else if (N_of_ascii c <? 32)%N then None
      else prepend (String c EmptyString) (unquote r)
  end.

(** The string a literal is read as: the bytes it stands for, coerced to
    valid UTF-8 as the serializer coerces them. *)
Definition read_string (s : string) : option (string * string) :=
  match unquote s with
  | Some (bytes, rest) => Some (to_valid_utf8 bytes, rest)
  | None => None
  end.

(** *** Numbers *)

Fixpoint span_digits (s : string) : string * string :=
  match s with
  | EmptyString => (EmptyString, EmptyString)
  | String c r =>
      if is_digit c then
        let '(ds, rest) := span_digits r in (String c ds, rest)
      else (EmptyString, s)
  end.

(** A fraction or an exponent would follow: not an integer. *)
Definition continues_number (rest : string) : bool :=
  match rest with
  | EmptyString => false
  | String c _ => Ascii.eqb c "." || Ascii.eqb c "e" || Ascii.eqb c "E"
  end.

Definition leading_zero (ds : string) : bool :=
  match ds with
  | String c (String _ _) => Ascii.eqb c "0"
  | _ => false
  end.

Definition parse_number (s : string) : option (Z * string) :=
  let '(negative, digits) :=
    match s with
    | String c r => if Ascii.eqb c "-" then (true, r) else (false, s)
    | EmptyString => (false, s)
    end in
  let '(ds, rest) := span_digits digits in
  if leading_zero ds || continues_number rest then None
  else
    match NilZero.uint_of_string ds with
    | Some u => Some (if negative then Z.opp (Z.of_uint u) else Z.of_uint u, rest)
    | None => None
    end.

Definition format_number (n : Z) : string := NilZero.string_of_int (Z.to_int n).

(** A text before which a number ends: no digit, no fraction, no exponent. *)
Definition ends_number (rest : string) : bool :=
  match rest with
  | EmptyString => true
  | String c _ => negb (is_digit c) && negb (continues_number rest)
  end.

(** *** Writing a document *)

Fixpoint repeat_string (s : string) (n : nat) : string :=
  match n with
  | O => EmptyString
  | S n' => s ++ repeat_string s n'
  end.

(** What separates the tokens: the text that starts a new line at a
    nesting depth, and the text between a colon and the member's value. *)
Record layout : Type := mkLayout {
  newline : nat -> string;
  after_colon : string
}.

(** No white space at all: what [Marshal] writes. *)
Definition compact : layout :=
  mkLayout (fun _ => EmptyString) EmptyString.

(** What [Indent] inserts: a line feed, the prefix and one copy of the
    indent per nesting level before each element, a space after a colon. *)
Definition indented (prefix indent : string) : layout :=
  mkLayout (fun depth => LF ++ prefix ++ repeat_string indent depth) " ".

Section Items.
Context {A : Type} (item : A -> string) (separator : string).

(** Every item behind a comma and the separator. *)
Fixpoint more_items (l : list A) : string :=
  match l with
  | [] => EmptyString
  | x :: l' => "," ++ separator ++ item x ++ more_items l'
  end.
End Items.

Definition render_member (L : layout) (r : document -> string) (m : string * document) : string :=
  quote (fst m) ++ ":" ++ after_colon L ++ r (snd m).

(** The text of a document in a layout. *)
Fixpoint render (L : layout) (depth : nat) (d : document) : string :=
  match d with
  | Null => "null"
  | Bool true => "true"
  | Bool false => "false"
  | Number n => format_number n
  | Str s => quote s
  | Array [] => "[]"
  | Array (x :: xs) =>
      "[" ++ newline L (S depth) ++ render L (S depth) x
          ++ more_items (render L (S depth)) (newline L (S depth)) xs
          ++ newline L depth ++ "]"
  | Object [] => "{}"
  | Object (m :: ms) =>
      "{" ++ newline L (S depth) ++ render_member L (render L (S depth)) m
          ++ more_items (render_member L (render L (S depth))) (newline L (S depth)) ms
          ++ newline L depth ++ "}"
  end.

(** *** The serializer *)

Section Traverse.
Context {A B : Type} (f : A -> B + error).

(** Left-to-right traversal that stops at the first error. *)
Fixpoint traverse (l : list A) : list B + error :=
  match l with
  | [] => inl []
  | x :: l' =>
      match f x with
      | inl y =>
          match traverse l' with
          | inl ys => inl (y :: ys)
          | inr e => inr e
          end
      | inr e => inr e
      end
  end.
End Traverse.

(** The text of a container from the texts of its items. *)
Definition container (L : layout) (depth : nat) (opening closing : string)
    (items : list string) : string :=
  match items with
  | [] => opening ++ closing
  | x :: xs =>
      opening ++ newline L (S depth) ++ x
        ++ more_items (fun text => text) (newline L (S depth)) xs
        ++ newline L depth ++ closing
  end.

(** Modelled from the spec: the serializer.  It walks the value and
    writes its text in the layout, or fails with the error of the first
    value it meets that it cannot write. *)
Fixpoint encode (L : layout) (depth : nat) (v : value) : string + error :=
  match v with
  | VNil => inl "null"
  | VBool true => inl "true"
  | VBool false => inl "false"
  | VInt n => inl (format_number n)
  | VString s => inl (quote s)
  | VSlice items =>
      match traverse (encode L (S depth)) items with
      | inl texts => inl (container L depth "[" "]" texts)
      | inr e => inr e
      end
  | VStruct fields =>
      match traverse (fun kv => match encode L (S depth) (snd kv) with
                                | inl text =>
                                    inl (quote (fst kv) ++ ":" ++ after_colon L ++ text)
                                | inr e => inr e
                                end) fields with
      | inl texts => inl (container L depth "{" "}" texts)
      | inr e => inr e
      end
  | VPointer target => encode L depth target
  | VUnsupported type => inr (UnsupportedTypeError type)
  | VMarshaler type failure => inr (MarshalerError type failure)
  end.

(** Modelled from the spec: [json.Marshal], the compact serialization, as
    the Go pair of the bytes and the error. *)
Definition Marshal (v : value) : string * option error :=
  match encode compact 0 v with
  | inl text => (text, None)
  | inr e => (EmptyString, Some e)
  end.

(** Modelled from the spec: [json.MarshalIndent], the serialization
    pretty-printed with a prefix and an indent, as the Go pair of the
    bytes and the error. *)
Definition MarshalIndent (v : value) (prefix indent : string) : string * option error :=
  match encode (indented prefix indent) 0 v with
  | inl text => (text, None)
  | inr e => (EmptyString, Some e)
  end.

(** *** Reading a document *)

(** The text after [word] when the text starts with it. *)
Fixpoint drop_prefix (word s : string) : option string :=
  match word with
  | EmptyString => Some s
  | String a word' =>
      match s with
      | EmptyString => None
      | String b s' => if Ascii.eqb a b then drop_prefix word' s' else None
      end
  end.

Definition expect (word : string) (d : document) (s : string) : option (document * string) :=
  option_map (pair d) (drop_prefix word s).

(** Recursive descent; [fuel] bounds the nesting of calls. *)
Fixpoint parse_value (fuel : nat) (s : string) : option (document * string) :=
  match fuel with
  | O => None
  | S fuel' =>
      match skip_ws s with
      | EmptyString => None
      | String c r =>
          if is_digit c || Ascii.eqb c "-" then
            match parse_number (String c r) with
            | Some (n, rest) => Some (Number n, rest)
            | None => None
            end
          else if Ascii.eqb c DQUOTE then
            match read_string r with
            | Some (str, rest) => Some (Str str, rest)
            | None => None
            end
          else if Ascii.eqb c "[" then
            match skip_ws r with
            | EmptyString => None
            | String c' r' =>
                if Ascii.eqb c' "]" then Some (Array [], r')
                else
                  match parse_elements fuel' r with
                  | Some (items, rest) => Some (Array items, rest)
                  | None => None
                  end
            end
          else if Ascii.eqb c "{" then
            match skip_ws r with
            | EmptyString => None
            | String c' r' =>
                if Ascii.eqb c' "}" then Some (Object [], r')
                else
                  match parse_members fuel' r with
                  | Some (members, rest) => Some (Object members, rest)
                  | None => None
                  end
            end
          else if Ascii.eqb c "n" then expect "ull" Null r
          else if Ascii.eqb c "t" then expect "rue" (Bool true) r
          else if Ascii.eqb c "f" then expect "alse" (Bool false) r
          else None
      end
  end

with parse_elements (fuel : nat) (s : string) : option (list document * string) :=
  match fuel with
  | O => None
  | S fuel' =>
      match parse_value fuel' s with
      | Some (d, r) =>
          match skip_ws r with
          | EmptyString => None
          | String c r' =>
              if Ascii.eqb c "," then
                match parse_elements fuel' r' with
                | Some (ds, rest) => Some (d :: ds, rest)
                | None => None
                end
              else if Ascii.eqb c "]" then Some ([d], r')
              else None
          end
      | None => None
      end
  end

with parse_members (fuel : nat) (s : string) : option (list (string * document) * string) :=
  match fuel with
  | O => None
  | S fuel' =>
      match skip_ws s with
      | EmptyString => None
      | String q r =>
          if Ascii.eqb q DQUOTE then
            match read_string r with
            | Some (key, r1) =>
                match skip_ws r1 with
                | EmptyString => None
                | String c r2 =>
                    if Ascii.eqb c ":" then
                      match parse_value fuel' r2 with
                      | Some (d, r3) =>
                          match skip_ws r3 with
                          | EmptyString => None
                          | String c' r4 =>
                              if Ascii.eqb c' "," then
                                match parse_members fuel' r4 with
                                | Some (ms, rest) => Some ((key, d) :: ms, rest)
                                | None => None
                                end
                              else if Ascii.eqb c' "}" then Some ([(key, d)], r4)
                              else None
                          end
                      | None => None
                      end
                    else None
                end
            | None => None
            end
          else None
      end
  end.

(** Modelled from the spec: parsing a text as JSON ([json.Unmarshal] into
    a document): one value, then only white space. *)
Definition Unmarshal (s : string) : option document :=
  match parse_value (2 * String.length s + 2) s with
  | Some (d, rest) => if all_ws rest then Some d else None
  | None => None
  end.

(** *** Stripping the layout *)

(** Drops the white space that stands outside string literals. *)
Fixpoint strip (in_string escaped : bool) (s : string) : string :=
  match s with
  | EmptyString => EmptyString
  | String c r =>
      if in_string then
        String c
          (if escaped then strip true false r
           else if Ascii.eqb c BACKSLASH then strip true true r
           else if Ascii.eqb c DQUOTE then strip false false r
           else strip true false r)
      else if is_ws c then strip false false r
      else String c (strip (Ascii.eqb c DQUOTE) false r)
  end.

(** Modelled from the spec: the text with its indentation stripped
    ([json.Compact]). *)
Definition Compact (s : string) : string := strip false false s.

(** A text that may follow a value inside a document: white space, a
    comma, a closing bracket or nothing. *)
Definition delimited (rest : string) : bool :=
  match rest with
  | EmptyString => true
  | String c _ => is_ws c || Ascii.eqb c "," || Ascii.eqb c "]" || Ascii.eqb c "}"
  end.

End encoding_json.

(** The serializer [main] is linked with. *)
#[export] Instance encoding_json_Serializer : Serializer encoding_json.value :=
  encoding_json.MarshalIndent.

(** ** Observations on runs *)

(** The writes of a trace, in order, each with its stream. *)
Fixpoint writes (t : trace) : list (fd * string) :=
  match t with
  | [] => []
  | EvWrite f text :: t' => (f, text) :: writes t'
  | _ :: t' => writes t'
  end.

(** The steps of the program, payloads erased. *)
Inductive step : Type := Enumerate | Serialize | Print | Terminate.

Definition step_of (e : event) : step :=
  match e with
  | EvGetResources => Enumerate
  | EvMarshalIndent _ _ => Serialize
  | EvWrite _ _ => Print
  | EvExit _ => Terminate
  end.

Definition schedule (t : trace) : list step := map step_of t.

(** How often a step occurs in a schedule. *)
Definition attempts (s : step) (t : trace) : nat :=
  length (filter (fun e => match step_of e, s with
                           | Enumerate, Enumerate | Serialize, Serialize
                           | Print, Print | Terminate, Terminate => true
                           | _, _ => false
                           end) t).

(** The number of line feeds in a text. *)
Fixpoint line_feeds (s : string) : nat :=
  match s with
  | EmptyString => 0
  | String c r => (if Ascii.eqb c "010" then 1 else 0) + line_feeds r
  end.

(** Two answers of the enumeration facility that a caller cannot tell
    apart: the same snapshot, or errors with the same message. *)
Definition same_answer {R} (a1 a2 : R * option error) : Prop :=
  match a1, a2 with
  | (r1, None), (r2, None) => r1 = r2
  | (_, Some e1), (_, Some e2) => Error e1 = Error e2
  | _, _ => False
  end.

(** ** Example runs *)

Module example.
Import encoding_json.

(** A small snapshot: a pointer to a structure with nested structures,
    a slice, a nil, numbers, a boolean, a string that needs escaping and
    a string with letters outside ASCII, in UTF-8. *)
Definition snapshot : value :=
  VPointer (VStruct
    [("cpu", VStruct [("sockets", VSlice [VStruct [("name", VString ("Xeon <R>" ++ LF));
                                                   ("vendor", VString ("Soci"
                                                      ++ String "195" (String "169" "t")
                                                      ++ String "195" (String "169" EmptyString)));
                                                   ("cores", VInt 4)]]);
                      ("total", VInt 8)]);
     ("memory", VStruct [("used", VInt 0); ("hugepages", VSlice []);
                         ("node", VNil); ("ecc", VBool true)])]).

(** The document that snapshot is structurally equivalent to. *)
Definition snapshot_document : document :=
  Object
    [("cpu", Object [("sockets", Array [Object [("name", Str ("Xeon <R>" ++ LF));
                                                ("vendor", Str ("Soci"
                                                   ++ String "195" (String "169" "t")
                                                   ++ String "195" (String "169" EmptyString)));
                                                ("cores", Number 4)]]);
                     ("total", Number 8)]);
     ("memory", Object [("used", Number 0); ("hugepages", Array []);
                        ("node", Null); ("ecc", Bool true)])].

(** A snapshot the serializer rejects: one field holds a channel. *)
Definition unserializable : value :=
  VPointer (VStruct [("cpu", VStruct [("total", VInt 8)]);
                     ("events", VUnsupported "chan int")]).

(** A snapshot the serializer rejects with a message of two lines: the
    [MarshalJSON] method of one of its values fails, and the error it
    returns holds a line feed. *)
Definition probe_failure : error :=
  mkError "*errors.errorString" ("read failed:" ++ LF ++ "device busy").

Definition probed : value :=
  VPointer (VStruct [("cpu", VStruct [("total", VInt 8)]);
                     ("sensors", VMarshaler "main.Probe" probe_failure)]).

(** Two snapshots with a string that is not UTF-8: a vendor name in
    Latin-1 (the byte 233 is its e with an acute accent), and a name cut
    in the middle of a sequence of two bytes. *)
Definition latin1 : value :=
  VPointer (VStruct [("vendor", VString ("Soci" ++ String "233" "t" ++ String "233" EmptyString))]).

Definition truncated : value :=
  VSlice [VString ("caf" ++ String "195" EmptyString); VInt 1].

Definition permission_denied : error :=
  mkError "*os.PathError" "open /sys/devices/system/cpu: permission denied".

Definition same_message : error :=
  mkError "*errors.errorString" "open /sys/devices/system/cpu: permission denied".

Definition good_host : Env value := mkEnv ["machine-resources"] (snapshot, None).
Definition odd_host : Env value := mkEnv ["machine-resources"] (unserializable, None).
Definition probed_host : Env value := mkEnv ["machine-resources"] (probed, None).
Definition latin1_host : Env value := mkEnv ["machine-resources"] (latin1, None).
Definition truncated_host : Env value := mkEnv ["machine-resources"] (truncated, None).
Definition locked_host : Env value :=
  mkEnv ["machine-resources"] (VNil, Some permission_denied).

End example.

(** ** The packaging scripts: a command-level model of the shell

    The maintainer script and the snap launchers are sequences of
    commands.  A script is modelled by the commands it runs, in order,
    each with the exit status the system gave it; the system is any
    function from the history so far and the command to a reply.  The
    shell itself contributes the control flow: conditionals, [||]
    lists, [set -e], [exec], and the expansion of unquoted words: the
    splitting into fields, and the replacement of a field that holds a
    pattern by the names of the files that match it, which the files
    present decide. *)

Module sh.

(** A command as the shell runs it: its words after expansion and the
    file its standard output is redirected to, when the script says so. *)
Record command : Type := mkCommand {
  words : list string;
  redirect : option string
}.

Definition cmd (ws : list string) : command := mkCommand ws None.
Definition cmd_to (ws : list string) (file : string) : command := mkCommand ws (Some file).

(** What the system observes of a script. *)
Inductive event : Type :=
| Ran (c : command) (status : Z)
| Replaced (c : command).

Definition history := list event.

(** What a command gives back: its exit status and what it printed. *)
Record reply : Type := mkReply { status : Z; output : string }.

Definition system := history -> command -> reply.

(** The shell's own state: the history and the status of the last
    command ([$?]). *)
Record state : Type := mkState { past : history; last : Z }.

(** How a piece of script ends: it goes on, the shell exits with a
    status, or the shell has replaced itself by a command ([exec]). *)
Inductive outcome (A : Type) : Type :=
| Next (a : A) (s : state)
| Stopped (code : Z) (h : history)
| Handed (h : history).
Arguments Next {A} _ _.
Arguments Stopped {A} _ _.
Arguments Handed {A} _.

Definition script (A : Type) : Type := system -> state -> outcome A.

Definition ret {A} (a : A) : script A := fun _ s => Next a s.

Definition bind {A B} (m : script A) (k : A -> script B) : script B :=
  fun sys s =>
    match m sys s with
    | Next a s' => k a sys s'
    | Stopped code h => Stopped code h
    | Handed h => Handed h
    end.

(** Runs one command: the system replies, the history grows, [$?] is set. *)
Definition call (c : command) : script reply :=
  fun sys s =>
    let r := sys (past s) c in
    Next r (mkState (past s ++ [Ran c (status r)])%list (status r)).

(** [set -e]: the shell exits with [$?] when it is not zero. *)
Definition errexit : script unit :=
  fun _ s => if Z.eqb (last s) 0 then Next tt s else Stopped (last s) (past s).

(** A simple command under [set -e]. *)
Definition simple (c : command) : script unit :=
  bind (call c) (fun _ => errexit).

(** The builtin [true]: sets [$?] to zero. *)
Definition true_ : script unit :=
  fun _ s => Next tt (mkState (past s) 0).

(** [c || true]: [true] runs when [c] fails; [set -e] does not apply to [c]. *)
Definition or_true (c : command) : script unit :=
  bind (call c) (fun r => if Z.eqb (status r) 0 then ret tt else true_).

(** [if c; then body; fi]: [set -e] does not apply to the condition; with
    the condition false and no [else], the status is zero. *)
Definition if_then (c : command) (body : script unit) : script unit :=
  bind (call c) (fun r => if Z.eqb (status r) 0 then body else true_).

(** [exec c]: the shell is replaced; nothing of the script runs after. *)
Definition exec {A} (c : command) : script A :=
  fun _ s => Handed (past s ++ [Replaced c])%list.

(** How a run of a whole script ends. *)
Definition run {A} (sys : system) (m : script A) : outcome A :=
  m sys (mkState [] 0).

Definition history_of {A} (o : outcome A) : history :=
  match o with
  | Next _ s => past s
  | Stopped _ h => h
  | Handed h => h
  end.

(** The exit status of the shell, when it is the shell that exits: the
    status given to [exit] or left by [set -e], or [$?] at the end of
    the script. *)
Definition exit_status {A} (o : outcome A) : option Z :=
  match o with
  | Next _ s => Some (last s)
  | Stopped code _ => Some code
  | Handed _ => None
  end.

(** The commands of a history, in order. *)
Definition commands (h : history) : list command :=
  map (fun e => match e with Ran c _ => c | Replaced c => c end) h.

(** *** Expansion of an unquoted word *)

Definition is_ifs (c : ascii) : bool :=
  Ascii.eqb c " " || Ascii.eqb c "009" || Ascii.eqb c "010".

Definition is_pattern (c : ascii) : bool :=
  Ascii.eqb c "*" || Ascii.eqb c "?" || Ascii.eqb c "[".

Fixpoint has (p : ascii -> bool) (s : string) : bool :=
  match s with
  | EmptyString => false
  | String c r => p c || has p r
  end.

(** Field splitting: the maximal runs of bytes that are not white space.
    [word] holds the field being read. *)
Fixpoint fields_from (word : string) (s : string) : list string :=
  match s with
  | EmptyString =>
      match word with
      | EmptyString => []
      | _ => [word]
      end
  | String c r =>
      if is_ifs c then
        match word with
        | EmptyString => fields_from EmptyString r
        | _ => word :: fields_from EmptyString r
        end
      else fields_from (word ++ String c EmptyString) r
  end.

Definition fields (s : string) : list string := fields_from EmptyString s.

(** What the files present make of a field that holds a pattern
    character: the names that match it, in order, and none when nothing
    matches.  The files may change while the script runs, so the answer
    depends on the history. *)
Definition files : Type := history -> string -> list string.

(** Pathname expansion of one field: a field without a pattern character
    is kept; a field with one is replaced by the names that match it,
    and kept as it is when none does. *)
Definition expand (fs : files) (h : history) (field : string) : list string :=
  if has is_pattern field then
    match fs h field with
    | [] => [field]
    | names => names
    end
  else [field].

(** An unquoted word: split into fields, each field expanded.  The
    shell splits what the variables of the word hold; the text around
    them in the words of these scripts holds no white space, so that
    splitting the whole word gives the same fields. *)
Definition unquoted (fs : files) (s : string) : script (list string) :=
  fun _ st => Next (flat_map (expand fs (past st)) (fields s)) st.

End sh.

Declare Scope sh_scope.
Delimit Scope sh_scope with sh.
Notation "x <- m ;; k" := (sh.bind m (fun x => k))
  (at level 61, m at next level, right associativity) : sh_scope.
Notation "m ;; k" := (sh.bind m (fun _ => k))
  (at level 61, right associativity) : sh_scope.

(** *** debian/maas-common.postrm *)

Module postrm.
Import sh.
Local Open Scope sh_scope.

(** The body of the [purge] case. *)
Definition purge : script unit :=
  if_then (cmd_to ["getent"; "passwd"; "maas"] "/dev/null") (
    or_true (cmd ["deluser"; "maas"]) ;;
    or_true (cmd ["delgroup"; "maas"])) ;;
  simple (cmd ["rm"; "-f"; "/var/log/maas/maas.log"]) ;;
  simple (cmd ["rm"; "-rf"; "/var/log/maas/rsyslog"]) ;;
  simple (cmd ["rm"; "-rf"; "/var/lib/maas/gnupg"]) ;;
  simple (cmd ["rm"; "-f"; "/var/lib/maas/secret"]) ;;
  simple (cmd ["rm"; "-f"; "/var/lib/maas/maas_id"]) ;;
  simple (cmd ["rm"; "-rf"; "/var/lib/maas/rsyslog"]) ;;
  simple (cmd ["rm"; "-f"; "/var/lib/maas/rsyslog.conf"]).

(** The script, started with its first argument ([$1], empty when there
    is none).  The line [#DEBHELPER#] is a comment to the shell. *)
Definition main (arg1 : string) : script unit :=
  (if String.eqb arg1 "purge" then purge else true_) ;;
  simple (cmd ["rm"; "-f"; "/etc/rsyslog.d/99-maas.conf"]).

(** The removals of a purge, in the order of the script. *)
Definition removals : list command :=
  [cmd ["rm"; "-f"; "/var/log/maas/maas.log"];
   cmd ["rm"; "-rf"; "/var/log/maas/rsyslog"];
   cmd ["rm"; "-rf"; "/var/lib/maas/gnupg"];
   cmd ["rm"; "-f"; "/var/lib/maas/secret"];
   cmd ["rm"; "-f"; "/var/lib/maas/maas_id"];
   cmd ["rm"; "-rf"; "/var/lib/maas/rsyslog"];
   cmd ["rm"; "-f"; "/var/lib/maas/rsyslog.conf"];
   cmd ["rm"; "-f"; "/etc/rsyslog.d/99-maas.conf"]].

End postrm.

(** *** The snap's environment and more of the shell *)

Module snap.
Import sh.
Local Open Scope sh_scope.

(** The variables the snap's scripts read. *)
Record vars : Type := mkVars {
  SNAP : string;
  SNAP_DATA : string;
  SNAP_COMMON : string;
  SNAP_INSTANCE_NAME : string;
  PWD : string
}.

(** A command in a condition ([if], [&&]): its status decides, [set -e]
    does not apply. *)
Definition test (c : command) : script bool :=
  r <- call c ;; ret (Z.eqb (status r) 0).

(** [a && b] in a condition: [b] is evaluated only when [a] holds. *)
Definition both (a b : script bool) : script bool :=
  x <- a ;; if x then b else ret false.

(** [exit code]. *)
Definition exit_ {A} (code : Z) : script A :=
  fun _ s => Stopped code (past s).

(** The text without its NUL bytes. *)
Fixpoint drop_nul (s : string) : string :=
  match s with
  | EmptyString => EmptyString
  | String c r => if Ascii.eqb c "000" then drop_nul r else String c (drop_nul r)
  end.

(** The text without its trailing line feeds. *)
Fixpoint drop_trailing_line_feeds (s : string) : string :=
  match s with
  | EmptyString => EmptyString
  | String c r =>
      match drop_trailing_line_feeds r with
      | EmptyString => if Ascii.eqb c "010" then EmptyString else String c EmptyString
      | r' => String c r'
      end
  end.

(** What a command substitution leaves of an output: bash drops the NUL
    bytes, wherever they are, and then the trailing line feeds. *)
Definition chomp (s : string) : string := drop_trailing_line_feeds (drop_nul s).

(** [$(c)]: runs the command and yields its output. *)
Definition capture (c : command) : script string :=
  r <- call c ;; ret (chomp (output r)).

(** [x=$(c)] as a command of its own: its status is the status of [c],
    and [set -e] applies to it. *)
Definition assigned (c : command) : script string :=
  r <- call c ;; errexit ;; ret (chomp (output r)).

(** *** The launcher of chronyd (src/unnamed/part_000, second script) *)

Module chronyd.

Definition conf (v : vars) : string := SNAP_DATA v ++ "/etc/chrony/chrony.conf".

Definition container_test : command := cmd ["["; "-f"; "/run/systemd/container"; "]"].

(** The launcher, with the files that the patterns of its unquoted
    words are matched against. *)
Definition main (fs : files) (v : vars) : script unit :=
  dir <- unquoted fs (SNAP_DATA v ++ "/etc/chrony") ;;
  simple (cmd (["mkdir"; "-p"] ++ dir)%list) ;;
  dir <- unquoted fs (SNAP_COMMON v ++ "/log/ntpstats") ;;
  simple (cmd (["mkdir"; "-p"] ++ dir)%list) ;;
  if_then (cmd ["["; "!"; "-e"; conf v; "]"])
    (simple (cmd ["cp"; SNAP v ++ "/usr/share/maas/chrony.conf"; conf v])) ;;
  let CHRONY_OPTS := "-u root -d -f " ++ SNAP_DATA v ++ "/etc/chrony/chrony.conf" in
  in_container <- test container_test ;;
  let CHRONY_OPTS := if in_container then CHRONY_OPTS ++ " -x" else CHRONY_OPTS in
  program <- unquoted fs (SNAP v ++ "/usr/sbin/chronyd") ;;
  options <- unquoted fs CHRONY_OPTS ;;
  exec (cmd (program ++ options)%list).

End chronyd.

(** *** The refresh hook (src/unnamed/part_000, first script) *)

Module hook.

(** The function [migration_done], run in a command substitution: there
    [set -e] is off, so the status of [stat] is not looked at; the text
    it prints is compared with the name of the daemon's user. *)
Definition migration_done (v : vars) : script string :=
  user <- capture (cmd ["stat"; "-C"; "%U"; SNAP_COMMON v ++ "/log"]) ;;
  true_ ;;
  ret (if String.eqb user "snap_daemon" then "1" else "0").

(** [[ "$user_migration_done" -ne 1 ]] on the text [migration_done] printed. *)
Definition not_migrated (user_migration_done : string) : bool :=
  negb (String.eqb user_migration_done "1").

Definition sudo_runner (v : vars) (program : string) (args : list string) : command :=
  cmd (List.app ["sudo"; "-u"; "snap_daemon"; "-E";
                 SNAP v ++ "/snap/command-chain/snapcraft-runner"; program] args).

Definition data (v : vars) : string := SNAP_COMMON v ++ "/postgres/data".
Definition data_9_5 (v : vars) : string := SNAP_COMMON v ++ "/postgres/data-9.5".
Definition data_10 (v : vars) : string := SNAP_COMMON v ++ "/postgres/data-10".
Definition pg_upgrade_dir (v : vars) : string := SNAP_COMMON v ++ "/pg_upgrade".

Definition initdb (v : vars) : command :=
  sudo_runner v (SNAP v ++ "/usr/lib/postgresql/10/bin/initdb")
    ["-D"; data_10 v; "-U"; "postgres"; "-E"; "UTF8"; "--locale=C"].

Definition pg_upgrade (v : vars) : command :=
  sudo_runner v (SNAP v ++ "/usr/lib/postgresql/10/bin/pg_upgrade")
    ["--old-bindir"; SNAP v ++ "/usr/postgresql-9.5/bin";
     "--old-datadir"; data_9_5 v;
     "--new-bindir"; SNAP v ++ "/usr/lib/postgresql/10/bin";
     "--new-datadir"; data_10 v;
     "-U"; "postgres"].

Definition snapctl_start (v : vars) : command :=
  cmd ["snapctl"; "start"; SNAP_INSTANCE_NAME v ++ ".supervisor"].

Definition migrate (v : vars) : command :=
  cmd [SNAP v ++ "/snap/command-chain/snapcraft-runner";
       SNAP v ++ "/command-maas.wrapper"; "migrate"; "--configure"].

(** Lines 5 to 37: directories and their owners.  The last word of the
    last [chown] is a pattern: the shell puts the names of the files
    that match it in its place. *)
Definition directories (fs : files) (v : vars) : script unit :=
  let C := SNAP_COMMON v in
  let D := SNAP_DATA v in
  simple (cmd ["mkdir"; "-p"; C ++ "/log/proxy"; C ++ "/log/http"]) ;;
  simple (cmd ["mkdir"; "-p"; C ++ "/proxy/cache"; C ++ "/proxy/spool"]) ;;
  user_migration_done <- migration_done v ;;
  (if not_migrated user_migration_done then
     simple (cmd ["chmod"; "775"; C ++ "/log"]) ;;
     simple (cmd ["chown"; "snap_daemon"; C ++ "/log"]) ;;
     simple (cmd ["chown"; "-R"; "root:root"; C ++ "/log/http"]) ;;
     simple (cmd ["chown"; "-R"; "snap_daemon:snap_daemon"; C ++ "/log/proxy"]) ;;
     simple (cmd ["chown"; "-R"; "snap_daemon:snap_daemon";
                  C ++ "/proxy/cache"; C ++ "/proxy/spool"])
   else true_) ;;
  simple (cmd ["mkdir"; "-p"; D ++ "/preseeds"]) ;;
  simple (cmd ["mkdir"; "-p"; D ++ "/bind"]) ;;
  simple (cmd ["mkdir"; "-p"; D ++ "/proxy"]) ;;
  simple (cmd ["mkdir"; "-p"; D ++ "/syslog"]) ;;
  simple (cmd ["mkdir"; "-p"; D ++ "/supervisord"]) ;;
  simple (cmd ["mkdir"; "-p"; D ++ "/var/lib/maas"]) ;;
  simple (cmd ["mkdir"; "-p"; D ++ "/var/lib/chrony"]) ;;
  (if not_migrated user_migration_done then
     found <- capture (cmd ["compgen"; "-G"; "/dev/shm/snap.maas.*.shm"]) ;;
     if negb (String.eqb found EmptyString) then
       names <- unquoted fs "/dev/shm/snap.maas.*.shm" ;;
       simple (cmd (["chown"; "-R"; "snap_daemon:snap_daemon"] ++ names)%list)
     else true_
   else true_).

(** Lines 39 to 44: the sample preseeds. *)
Definition samples (v : vars) : script unit :=
  let from := SNAP v ++ "/etc/maas/preseeds/" in
  let to := SNAP_DATA v ++ "/preseeds/" in
  simple (cmd ["cp"; from ++ "curtin_userdata"; to ++ "curtin_userdata.sample"]) ;;
  simple (cmd ["cp"; from ++ "curtin_userdata_centos"; to ++ "curtin_userdata_centos.sample"]) ;;
  simple (cmd ["cp"; from ++ "curtin_userdata_custom"; to ++ "curtin_userdata_custom.sample"]) ;;
  simple (cmd ["cp"; from ++ "curtin_userdata_windows"; to ++ "curtin_userdata_windows.sample"]).

(** Lines 46 to 73: the layout of the database directories. *)
Definition layout (v : vars) : script unit :=
  let C := SNAP_COMMON v in
  let D := SNAP_DATA v in
  if_then (cmd ["["; "!"; "-e"; C ++ "/postgres"; "]"]) (
    simple (cmd ["mkdir"; "-m"; "770"; C ++ "/postgres"]) ;;
    simple (cmd ["mkdir"; C ++ "/postgres/sockets"]) ;;
    if_then (cmd ["["; "-f"; D ++ "/supervisord/supervisord.conf"; "]"])
      (simple (cmd ["sed"; "-i";
                    "/bin\/postgres/ { s|/db|/postgres/data|; s|/db|/postgres/sockets|}";
                    D ++ "/supervisord/supervisord.conf"])) ;;
    if_then (cmd ["["; "-f"; D ++ "/regiond.conf"; "]"])
      (simple (cmd ["sed"; "-i"; "s|common/db|common/postgres/sockets|";
                    D ++ "/regiond.conf"]))) ;;
  if_then (cmd ["["; "-d"; C ++ "/db"; "]"]) (
    if_then (cmd ["["; "-d"; data v; "]"]) (
      simple (cmd ["echo"; "Failed to upgrage PostgreSQL layout: " ++ data v
                             ++ " already exists."]) ;;
      exit_ 1) ;;
    simple (cmd ["mv"; C ++ "/db"; data v])) ;;
  simple (cmd ["chgrp"; "snap_daemon"; C ++ "/postgres"]) ;;
  if_then (cmd ["["; "-d"; C ++ "/postgres/sockets"; "]"])
    (simple (cmd ["chown"; "snap_daemon.snap_daemon"; C ++ "/postgres/sockets"])) ;;
  if_then (cmd ["["; "-d"; data v; "]"])
    (simple (cmd ["chown"; "-R"; "snap_daemon.snap_daemon"; data v])).

(** Lines 79 to 109: from PostgreSQL 9.5 to 10. *)
Definition upgrade_from_9_5 (v : vars) : script unit :=
  simple (cmd ["echo"; "Upgrading from PostgreSQL 9.5 to 10."]) ;;
  let ORIG_DIR := PWD v in
  simple (cmd ["mv"; data v; data_9_5 v]) ;;
  simple (cmd ["mkdir"; pg_upgrade_dir v]) ;;
  simple (cmd ["chown"; "snap_daemon:snap_daemon"; pg_upgrade_dir v]) ;;
  simple (cmd ["cd"; pg_upgrade_dir v]) ;;
  simple (cmd ["rm"; "-rf"; data_10 v]) ;;
  simple (cmd ["mkdir"; data_10 v]) ;;
  simple (cmd ["chown"; "snap_daemon:snap_daemon"; data_10 v]) ;;
  simple (initdb v) ;;
  simple (pg_upgrade v) ;;
  simple (cmd ["cd"; ORIG_DIR]) ;;
  simple (cmd ["rm"; "-rf"; pg_upgrade_dir v]) ;;
  simple (cmd ["mv"; data_10 v; data v]).

(** Lines 75 to 114: the version of the database. *)
Definition version (v : vars) : script unit :=
  has_version <- both (test (cmd ["["; "-d"; data v; "]"]))
                      (test (cmd ["["; "-e"; data v ++ "/PG_VERSION"; "]"])) ;;
  if has_version then
    PG_VERSION <- assigned (cmd ["cat"; data v ++ "/PG_VERSION"]) ;;
    if String.eqb PG_VERSION "9.5" then upgrade_from_9_5 v
    else if negb (String.eqb PG_VERSION "10") then
      simple (cmd ["echo"; "Failed to upgrage PostgreSQL from " ++ PG_VERSION
                             ++ "; unknown version."]) ;;
      exit_ 1
    else true_
  else true_.

(** The hook, with the files that the pattern of its one unquoted word
    is matched against. *)
Definition main (fs : files) (v : vars) : script unit :=
  directories fs v ;;
  samples v ;;
  layout v ;;
  version v ;;
  simple (snapctl_start v) ;;
  exec (migrate v).

End hook.

End snap.

(** *** Observations on the histories of the scripts *)

Module script_facts.
Import sh snap.

(** The name a command is called by. *)
Definition head (c : command) : string :=
  match words c with
  | w :: _ => w
  | [] => EmptyString
  end.

Definition command_of (e : event) : command :=
  match e with Ran c _ => c | Replaced c => c end.

(** The commands of the snap's scripts to which [set -e] does not apply:
    the tests of conditions, and the commands run in command
    substitutions that are not assignments of their own. *)
Definition exempt (c : command) : bool :=
  String.eqb (head c) "[" || String.eqb (head c) "stat" || String.eqb (head c) "compgen".

Definition succeeded_or_exempt (e : event) : Prop :=
  match e with
  | Ran c st => st = 0%Z \/ exempt c = true
  | Replaced _ => True
  end.

(** An event whose command is not called by one of the names. *)
Definition not_called (names : list string) (e : event) : Prop :=
  ~ In (head (command_of e)) names.

(** An event that removes, if anything, one of the two scratch
    directories of the database upgrade. *)
Definition removes_scratch_only (v : vars) (e : event) : Prop :=
  match e with
  | Ran c _ =>
      head c = "rm" ->
      c = cmd ["rm"; "-rf"; hook.data_10 v] \/ c = cmd ["rm"; "-rf"; hook.pg_upgrade_dir v]
  | Replaced _ => True
  end.

(** The two moves of the upgrade: the old database aside, the new one
    into its place. *)
Definition set_aside (v : vars) : command := cmd ["mv"; hook.data v; hook.data_9_5 v].
Definition move_into_place (v : vars) : command := cmd ["mv"; hook.data_10 v; hook.data v].

(** An event that leaves the database as it is: nothing through [sudo],
    no change of directory, no removal, and the data directory is not
    moved away. *)
Definition left_alone (v : vars) (e : event) : Prop :=
  not_called ["sudo"; "cd"; "rm"] e /\ command_of e <> set_aside v.

Definition not_moved_yet (v : vars) (e : event) : Prop :=
  command_of e <> move_into_place v.

(** The steps of the upgrade that come before the new database is moved
    into place, each with status zero. *)
Definition upgraded (v : vars) (h : history) : Prop :=
  In (Ran (set_aside v) 0) h /\
  In (Ran (hook.initdb v) 0) h /\
  In (Ran (hook.pg_upgrade v) 0) h.

(** A text without white space and without pattern characters: unquoted,
    it stays one word. *)
Definition plain (s : string) : bool :=
  negb (has is_ifs s) && negb (has is_pattern s).

End script_facts.

Module postrm_facts.
Import sh.

Definition is_rm (c : command) : bool :=
  match words c with
  | w :: _ => String.eqb w "rm"
  | [] => false
  end.

(** No event follows a removal that failed. *)
Fixpoint fail_fast (h : history) : bool :=
  match h with
  | [] => true
  | Ran c st :: rest =>
      (if is_rm c && negb (Z.eqb st 0) then
         match rest with [] => true | _ :: _ => false end
       else true) && fail_fast rest
  | Replaced _ :: rest => fail_fast rest
  end.

End postrm_facts.

(** *** Specifications of scripts

    Started after a history that satisfies [P], the script goes on with
    a result and a history in [Q], or stops with a code and a history in
    [E], or hands over after a history in [X]. *)
Definition ensures {A} (sys : sh.system) (P : sh.history -> Prop) (m : sh.script A)
    (Q : A -> sh.history -> Prop) (E : Z -> sh.history -> Prop)
    (X : sh.history -> Prop) : Prop :=
  forall s, P (sh.past s) ->
    match m sys s with
    | sh.Next a s' => Q a (sh.past s')
    | sh.Stopped code h => E code h
    | sh.Handed h => X h
    end.

(** *** Systems and environments to run the scripts on *)

Module machines.
Import sh snap.

Fixpoint same_words (a b : list string) : bool :=
  match a, b with
  | [], [] => true
  | x :: a', y :: b' => String.eqb x y && same_words a' b'
  | _, _ => false
  end.

(** The replies of the commands that do not simply succeed. *)
Definition replies : Type := list (list string * reply).

Fixpoint answer (t : replies) (ws : list string) : reply :=
  match t with
  | [] => mkReply 0 EmptyString
  | (ws', r) :: t' => if same_words ws ws' then r else answer t' ws
  end.

(** The system on which the listed commands reply as listed, whatever
    ran before, and every other command succeeds and prints nothing. *)
Definition machine (t : replies) : system := fun _ c => answer t (words c).

Definition quiet : system := machine [].

(** The removal of the keyring fails. *)
Definition gnupg_busy : system :=
  machine [(["rm"; "-rf"; "/var/lib/maas/gnupg"], mkReply 1 EmptyString)].

(** The account exists, and neither [deluser] nor [delgroup] can delete it. *)
Definition account_in_use : system :=
  machine [(["deluser"; "maas"], mkReply 1 EmptyString);
           (["delgroup"; "maas"], mkReply 1 EmptyString)].

Definition maas_vars : vars :=
  mkVars "/snap/maas/100" "/var/snap/maas/100" "/var/snap/maas/common" "maas" "/root".

(** A snap whose database is in the new layout, at the version given by
    the text of its version file. *)
Definition database_at (version : string) : system :=
  machine [(["["; "-d"; SNAP_COMMON maas_vars ++ "/db"; "]"], mkReply 1 EmptyString);
           (["cat"; hook.data maas_vars ++ "/PG_VERSION"], mkReply 0 (version ++ LF))].

(** A snap that ran unconfined and left a segment of shared memory: the
    one file the pattern of the hook matches, which [compgen] prints. *)
Definition one_segment : files :=
  fun _ pattern =>
    if String.eqb pattern "/dev/shm/snap.maas.*.shm" then ["/dev/shm/snap.maas.lock.shm"]
    else [].

Definition with_shared_memory : system :=
  machine [(["compgen"; "-G"; "/dev/shm/snap.maas.*.shm"],
            mkReply 0 ("/dev/shm/snap.maas.lock.shm" ++ LF));
           (["["; "-d"; SNAP_COMMON maas_vars ++ "/db"; "]"], mkReply 1 EmptyString);
           (["cat"; hook.data maas_vars ++ "/PG_VERSION"], mkReply 0 ("10" ++ LF))].

(** No file matches any pattern. *)
Definition no_match : files := fun _ _ => [].

(** An instance of the snap whose common directory has a name with
    brackets in it. *)
Definition bracket_vars : vars :=
  mkVars "/snap/maas/100" "/var/snap/maas/100" "/var/snap/maas/common[1]" "maas" "/root".

(** The configuration of chronyd is already there. *)
Definition configured : system :=
  machine [(["["; "!"; "-e"; chronyd.conf bracket_vars; "]"], mkReply 1 EmptyString)].

End machines.

(** * Properties of the reporter *)

(** ** Text lemmas *)

Lemma append_nil_r (s : string) : s ++ EmptyString = s.
Proof. induction s as [|c s IH]; simpl; [reflexivity | now rewrite IH]. Qed.

Lemma append_assoc (a b c : string) : (a ++ b) ++ c = a ++ (b ++ c).
Proof. induction a as [|x a IH]; simpl; [reflexivity | now rewrite IH]. Qed.

Lemma length_append (a b : string) :
  String.length (a ++ b) = String.length a + String.length b.
Proof. induction a as [|x a IH]; simpl; [reflexivity | now rewrite IH]. Qed.

Lemma line_feeds_append (a b : string) :
  line_feeds (a ++ b) = line_feeds a + line_feeds b.
Proof.
  induction a as [|x a IH]; simpl; [reflexivity |].
  rewrite IH. lia.
Qed.

Lemma prefix_append (a b : string) : String.prefix a (a ++ b) = true.
Proof.
  induction a as [|x a IH]; simpl.
  - now destruct b.
  - destruct (ascii_dec x x) as [_|Hx]; [exact IH | now contradiction Hx].
Qed.

(** ** What the two format strings of [main] print *)

Lemma Sprintf_error_line (e : error) :
  fmt.Sprintf ("error: %v" ++ LF) [fmt.AnyError e] = Some ("error: " ++ Error e ++ LF).
Proof.
  unfold fmt.Sprintf. cbn. reflexivity.
Qed.

Lemma Sprintf_data_line (data : string) :
  fmt.Sprintf ("%s" ++ LF) [fmt.AnyBytes data] = Some (data ++ LF).
Proof.
  unfold fmt.Sprintf. cbn. reflexivity.
Qed.

Section Reporter.
Context {Resources : Type} `{Serializer Resources}.

(** ** The three paths of [main] *)

Lemma run_enumeration_failed (env : Env Resources) (r : Resources) (e : error) :
  facility env = (r, Some e) ->
  run env = Exited 1 [EvGetResources; EvWrite Stdout ("error: " ++ Error e ++ LF); EvExit 1].
Proof.
  intros Hf. unfold run, main, bind, resources.GetResources.
  rewrite Hf. cbn -[fmt.Sprintf append].
  unfold fmt.Printf. rewrite Sprintf_error_line. reflexivity.
Qed.

Lemma run_serialization_failed (env : Env Resources) (r : Resources) (data : string) (e : error) :
  facility env = (r, None) ->
  marshal_indent r EmptyString TAB = (data, Some e) ->
  run env = Exited 1 [EvGetResources; EvMarshalIndent EmptyString TAB;
                      EvWrite Stdout ("error: " ++ Error e ++ LF); EvExit 1].
Proof.
  intros Hf Hm. unfold run, main, bind, resources.GetResources, json.MarshalIndent.
  rewrite Hf. cbn -[fmt.Sprintf append]. rewrite Hm. cbn -[fmt.Sprintf append].
  unfold fmt.Printf. rewrite Sprintf_error_line. reflexivity.
Qed.

Lemma run_succeeded (env : Env Resources) (r : Resources) (data : string) :
  facility env = (r, None) ->
  marshal_indent r EmptyString TAB = (data, None) ->
  run env = Returned tt [EvGetResources; EvMarshalIndent EmptyString TAB;
                         EvWrite Stdout (data ++ LF)].
Proof.
  intros Hf Hm. unfold run, main, bind, resources.GetResources, json.MarshalIndent.
  rewrite Hf. cbn -[fmt.Sprintf append]. rewrite Hm. cbn -[fmt.Sprintf append].
  unfold fmt.Printf. rewrite Sprintf_data_line. reflexivity.
Qed.

(** Case analysis on the path a run takes: the enumeration failed, the
    serialization failed, or both succeeded. *)
Ltac paths env :=
  let r := fresh "r" in
  let e := fresh "e" in
  let data := fresh "data" in
  let Hf := fresh "Hf" in
  let Hm := fresh "Hm" in
  destruct (facility env) as [r [e|]] eqn:Hf;
  [ pose proof (run_enumeration_failed env r e Hf)
  | destruct (marshal_indent r EmptyString TAB) as [data [e|]] eqn:Hm;
    [ pose proof (run_serialization_failed env r data e Hf Hm)
    | pose proof (run_succeeded env r data Hf Hm) ] ].

(** The run reads its environment through the facility's answer only. *)
Lemma run_reads_the_answer_only
    (args1 args2 : list string) (answer : Resources * option error) :
  run (mkEnv args1 answer) = run (mkEnv args2 answer).
Proof.
  paths (mkEnv args1 answer); simpl in Hf; subst answer.
  - now rewrite (run_enumeration_failed (mkEnv args2 _) r e eq_refl).
  - now rewrite (run_serialization_failed (mkEnv args2 _) r data e eq_refl Hm).
  - now rewrite (run_succeeded (mkEnv args2 _) r data eq_refl Hm).
Qed.

(** ** The contract of the command *)

(** C1. When the enumeration returns a snapshot and the serializer
    returns its tab-indented JSON text [data], standard output holds
    exactly [data] followed by one line feed, written in a single write,
    and the exit status is 0. *)
Theorem success_prints_indented_json
    (env : Env Resources) (snapshot : Resources) (data : string) :
  facility env = (snapshot, None) ->
  marshal_indent snapshot EmptyString TAB = (data, None) ->
  stdout (run env) = data ++ LF /\
  writes (trace_of (run env)) = [(Stdout, data ++ LF)] /\
  exit_status (run env) = Some 0%Z.
Proof.
  intros Hf Hm.
  rewrite (run_succeeded env snapshot data Hf Hm).
  unfold stdout; simpl.
  rewrite append_nil_r.
  repeat split.
Qed.

(** C2. When the enumeration fails with an error whose message is [M],
    standard output holds exactly [error: M] followed by a line feed, and
    the exit status is 1. *)
Theorem enumeration_failure_prints_error
    (env : Env Resources) (r : Resources) (e : error) (M : string) :
  facility env = (r, Some e) ->
  Error e = M ->
  stdout (run env) = "error: " ++ M ++ LF /\
  exit_status (run env) = Some 1%Z.
Proof.
  intros Hf HM.
  rewrite (run_enumeration_failed env r e Hf), HM.
  unfold stdout; simpl.
  rewrite append_nil_r.
  split; reflexivity.
Qed.

(** C3, as amended.  When the enumeration succeeds and the serializer
    fails, the only write of the run is the error line on standard
    output: the prefix [error: ], the serializer's message and a line
    feed.  No JSON text precedes it, the output has one line feed more
    than the message (it is a single line exactly when the message holds
    no line feed), and the exit status is 1. *)
Theorem serialization_failure_prints_error_only
    (env : Env Resources) (snapshot : Resources) (data : string) (e : error) :
  facility env = (snapshot, None) ->
  marshal_indent snapshot EmptyString TAB = (data, Some e) ->
  writes (trace_of (run env)) = [(Stdout, "error: " ++ Error e ++ LF)] /\
  stdout (run env) = "error: " ++ Error e ++ LF /\
  String.prefix "error: " (stdout (run env)) = true /\
  line_feeds (stdout (run env)) = S (line_feeds (Error e)) /\
  exit_status (run env) = Some 1%Z.
Proof.
  intros Hf Hm.
  rewrite (run_serialization_failed env snapshot data e Hf Hm).
  assert (Hout : stdout (Exited (A := unit) 1
                   [EvGetResources; EvMarshalIndent EmptyString TAB;
                    EvWrite Stdout ("error: " ++ Error e ++ LF); EvExit 1])
                 = "error: " ++ Error e ++ LF).
  { unfold stdout; cbn [trace_of written]. apply append_nil_r. }
  rewrite Hout.
  split; [reflexivity | split; [reflexivity | split; [| split]]].
  - apply prefix_append.
  - rewrite !line_feeds_append. simpl. lia.
  - reflexivity.
Qed.

(** C6. On every path the run writes nothing to standard error: every
    write goes to standard output, and the run stays inside the model. *)
Theorem nothing_on_stderr (env : Env Resources) :
  stderr (run env) = EmptyString /\
  Forall (fun w => fst w = Stdout) (writes (trace_of (run env))) /\
  exit_status (run env) <> None.
Proof.
  paths env; match goal with Hrun : run env = _ |- _ => rewrite Hrun end;
    (split; [reflexivity | split; [repeat constructor | discriminate]]).
Qed.

(** C7. The argument vector is never consulted: with the same answer
    from the enumeration facility, two runs started with any two
    argument vectors are the same run, with the same standard output and
    the same exit status. *)
Theorem independent_of_arguments
    (args1 args2 : list string) (answer : Resources * option error) :
  run (mkEnv args1 answer) = run (mkEnv args2 answer) /\
  stdout (run (mkEnv args1 answer)) = stdout (run (mkEnv args2 answer)) /\
  exit_status (run (mkEnv args1 answer)) = exit_status (run (mkEnv args2 answer)).
Proof.
  pose proof (run_reads_the_answer_only args1 args2 answer) as Hrun.
  split; [exact Hrun |].
  split; [unfold stdout | ]; now rewrite Hrun.
Qed.

(** C8. The steps of a run come in one fixed order.  If the enumeration
    fails the run is enumerate, print, exit, and the serializer is never
    called.  If the serializer fails it is enumerate, serialize, print,
    exit.  Otherwise it is enumerate, serialize, print, and [main]
    returns.  No step is tried twice. *)
Theorem steps_in_order (env : Env Resources) :
  let t := trace_of (run env) in
  match facility env with
  | (_, Some _) =>
      schedule t = [Enumerate; Print; Terminate] /\
      attempts Serialize t = 0 /\
      exit_status (run env) = Some 1%Z
  | (snapshot, None) =>
      match marshal_indent snapshot EmptyString TAB with
      | (_, Some _) =>
          schedule t = [Enumerate; Serialize; Print; Terminate] /\
          exit_status (run env) = Some 1%Z
      | (_, None) =>
          schedule t = [Enumerate; Serialize; Print] /\
          run env = Returned tt t
      end
  end /\
  attempts Enumerate t = 1 /\
  attempts Serialize t <= 1 /\
  attempts Print t = 1.
Proof.
  intros t; subst t.
  paths env; match goal with Hrun : run env = _ |- _ => rewrite Hrun end;
    simpl; repeat split; auto.
Qed.

(** C9. The exit status is 0 exactly when the enumeration and the
    serialization of its snapshot both succeed; it is 1 when either
    fails; no run ends with another status. *)
Theorem exit_status_is_0_or_1 (env : Env Resources) :
  let enumerated := snd (facility env) = None in
  let serialized := snd (marshal_indent (fst (facility env)) EmptyString TAB) = None in
  (exit_status (run env) = Some 0%Z <-> enumerated /\ serialized) /\
  (exit_status (run env) = Some 1%Z <-> ~ (enumerated /\ serialized)) /\
  (exit_status (run env) = Some 0%Z \/ exit_status (run env) = Some 1%Z).
Proof.
  intros enumerated serialized; subst enumerated serialized.
  paths env; match goal with Hrun : run env = _ |- _ => rewrite Hrun end;
    simpl; try rewrite Hm; simpl;
    (split; [| split]); try tauto;
    try (split; [discriminate | intros [? ?]; discriminate]);
    try (split; [intros _ [? ?]; discriminate | reflexivity]);
    try (split; [discriminate | intros Hn; exfalso; apply Hn; now split]).
Qed.

(** C10. The run is a function of the facility's answer as a caller sees
    it: two runs whose enumerations returned the same snapshot, or failed
    with errors of the same message, write the same bytes to standard
    output and end with the same exit status, whatever their arguments. *)
Theorem deterministic_in_the_answer
    (args1 args2 : list string) (a1 a2 : Resources * option error) :
  same_answer a1 a2 ->
  stdout (run (mkEnv args1 a1)) = stdout (run (mkEnv args2 a2)) /\
  stderr (run (mkEnv args1 a1)) = stderr (run (mkEnv args2 a2)) /\
  exit_status (run (mkEnv args1 a1)) = exit_status (run (mkEnv args2 a2)).
Proof.
  destruct a1 as [r1 [e1|]], a2 as [r2 [e2|]]; simpl; intros Hsame;
    try contradiction.
  - rewrite (run_enumeration_failed (mkEnv args1 _) r1 e1 eq_refl).
    rewrite (run_enumeration_failed (mkEnv args2 _) r2 e2 eq_refl).
    unfold stdout, stderr; simpl. now rewrite Hsame.
  - subst r2.
    rewrite (run_reads_the_answer_only args1 args2 (r1, None)).
    repeat split.
Qed.

End Reporter.

(** * Properties of the serializer model *)

Import encoding_json.

(** ** Characters and white space *)

(** Case analysis on all 256 bytes. *)
Ltac each_byte c :=
  destruct c as [[] [] [] [] [] [] [] []].

Lemma skip_ws_append (w s : string) :
  all_ws w = true -> skip_ws (w ++ s) = skip_ws s.
Proof.
  induction w as [|c w IH]; simpl; [reflexivity |].
  intros Hw. apply andb_prop in Hw as [Hc Hw].
  rewrite Hc. now apply IH.
Qed.

Lemma all_ws_append (a b : string) :
  all_ws a = true -> all_ws b = true -> all_ws (a ++ b) = true.
Proof.
  induction a as [|c a IH]; simpl; [easy |].
  intros Ha Hb. apply andb_prop in Ha as [Hc Ha].
  rewrite Hc. now apply IH.
Qed.

Lemma all_ws_repeat (s : string) (n : nat) :
  all_ws s = true -> all_ws (repeat_string s n) = true.
Proof.
  intros Hs. induction n as [|n IH]; simpl; [reflexivity |].
  now apply all_ws_append.
Qed.

(** ** Numbers *)

Lemma span_digits_stop (rest : string) :
  ends_number rest = true -> span_digits rest = (EmptyString, rest).
Proof.
  destruct rest as [|c r]; simpl; [reflexivity |].
  intros Hc. apply andb_prop in Hc as [Hd _].
  apply negb_true_iff in Hd. now rewrite Hd.
Qed.

Lemma span_digits_uint (d : Decimal.uint) (rest : string) :
  ends_number rest = true ->
  span_digits (NilEmpty.string_of_uint d ++ rest) = (NilEmpty.string_of_uint d, rest).
Proof.
  intros Hrest.
  induction d as [|d IH|d IH|d IH|d IH|d IH|d IH|d IH|d IH|d IH|d IH];
    simpl; try (rewrite IH; reflexivity).
  now apply span_digits_stop.
Qed.

Lemma nzhead_no_leading_zero (d d' : Decimal.uint) : Decimal.nzhead d <> Decimal.D0 d'.
Proof. induction d; simpl; try discriminate. exact IHd. Qed.

Lemma to_uint_no_leading_zero (p : positive) (d : Decimal.uint) :
  Pos.to_uint p <> Decimal.D0 d.
Proof.
  intros Hp.
  assert (Hnorm : Decimal.unorm (Pos.to_uint p) = Pos.to_uint p).
  { rewrite <- Unsigned.to_of, Unsigned.of_to. reflexivity. }
  unfold Decimal.unorm in Hnorm.
  destruct (Decimal.nzhead (Pos.to_uint p)) eqn:Hnz;
    try (rewrite Hp in Hnorm; discriminate Hnorm).
  - apply (Unsigned.to_uint_nonzero p). now rewrite <- Hnorm.
  - now apply (nzhead_no_leading_zero (Pos.to_uint p) u).
Qed.


Lemma leading_zero_other (c : ascii) (s : string) :
  Ascii.eqb c "0" = false -> leading_zero (String c s) = false.
Proof. intros Hc. destruct s; simpl; [reflexivity | exact Hc]. Qed.

Lemma ends_number_continues (rest : string) :
  ends_number rest = true -> continues_number rest = false.
Proof.
  destruct rest as [|c r]; [reflexivity |].
  unfold ends_number. intros Hc. apply andb_prop in Hc as [_ Hc].
  now apply negb_true_iff in Hc.
Qed.

Lemma parse_number_uint (d : Decimal.uint) (rest : string) :
  d <> Decimal.Nil ->
  (forall d', d <> Decimal.D0 d') ->
  ends_number rest = true ->
  parse_number (NilEmpty.string_of_uint d ++ rest) = Some (Z.of_uint d, rest) /\
  parse_number (String "-" (NilEmpty.string_of_uint d ++ rest))
    = Some (Z.opp (Z.of_uint d), rest).
Proof.
  intros Hnil Hzero Hrest.
  assert (Hread : NilZero.uint_of_string (NilEmpty.string_of_uint d) = Some d).
  { rewrite <- (NilZero.usu d Hnil). now destruct d. }
  pose proof (span_digits_uint d rest Hrest) as Hspan.
  pose proof (ends_number_continues rest Hrest) as Hcont.
  destruct d as [|d|d|d|d|d|d|d|d|d|d];
    [ now contradiction Hnil | now contradiction (Hzero d) | .. ];
    (split; unfold parse_number;
     cbn [NilEmpty.string_of_uint append Ascii.eqb Bool.eqb];
     cbn [NilEmpty.string_of_uint append] in Hspan;
     rewrite Hspan;
     rewrite leading_zero_other by reflexivity;
     rewrite Hcont; cbn [orb];
     cbn [NilEmpty.string_of_uint] in Hread; rewrite Hread; reflexivity).
Qed.

Lemma parse_number_format (n : Z) (rest : string) :
  ends_number rest = true ->
  parse_number (format_number n ++ rest) = Some (n, rest).
Proof.
  intros Hrest. unfold format_number.
  destruct n as [|p|p]; cbn [Z.to_int NilZero.string_of_int].
  - unfold parse_number. cbn.
    rewrite (span_digits_stop rest Hrest), (ends_number_continues rest Hrest).
    reflexivity.
  - assert (Hd : NilZero.string_of_uint (Pos.to_uint p)
                 = NilEmpty.string_of_uint (Pos.to_uint p)).
    { pose proof (Unsigned.to_uint_nonnil p). now destruct (Pos.to_uint p). }
    rewrite Hd.
    destruct (parse_number_uint (Pos.to_uint p) rest) as [Hpos _];
      auto using Unsigned.to_uint_nonnil, to_uint_no_leading_zero.
    rewrite Hpos. f_equal. f_equal.
    exact (DecimalZ.of_to (Zpos p)).
  - assert (Hd : NilZero.string_of_uint (Pos.to_uint p)
                 = NilEmpty.string_of_uint (Pos.to_uint p)).
    { pose proof (Unsigned.to_uint_nonnil p). now destruct (Pos.to_uint p). }
    rewrite Hd.
    destruct (parse_number_uint (Pos.to_uint p) rest) as [_ Hneg];
      auto using Unsigned.to_uint_nonnil, to_uint_no_leading_zero.
    change (String "-" (NilEmpty.string_of_uint (Pos.to_uint p)) ++ rest)
      with (String "-" (NilEmpty.string_of_uint (Pos.to_uint p) ++ rest)).
    rewrite Hneg. f_equal. f_equal.
    exact (DecimalZ.of_to (Zneg p)).
Qed.

(** ** UTF-8: the pieces of a text *)

Lemma between_not_ascii (lo hi : N) (c : ascii) :
  (128 <= lo)%N -> between lo hi c = true -> is_ascii c = false.
Proof.
  unfold between, is_ascii. intros Hlo Hc.
  apply andb_prop in Hc as [Hc _]. apply N.leb_le in Hc.
  apply N.ltb_ge. lia.
Qed.

Lemma continuation_not_ascii (c : ascii) : continuation c = true -> is_ascii c = false.
Proof. apply between_not_ascii. lia. Qed.

Lemma two_bytes_not_ascii (c c1 : ascii) :
  two_bytes c c1 = true -> is_ascii c1 = false.
Proof.
  unfold two_bytes. intros H. apply andb_prop in H as [_ H].
  now apply continuation_not_ascii.
Qed.

Lemma three_bytes_not_ascii (c c1 c2 : ascii) :
  three_bytes c c1 c2 = true -> is_ascii c1 = false /\ is_ascii c2 = false.
Proof.
  unfold three_bytes. intros H. apply andb_prop in H as [H H2].
  split; [| now apply continuation_not_ascii].
  repeat (apply orb_prop in H as [H|H]); apply andb_prop in H as [_ H];
    revert H; apply between_not_ascii; lia.
Qed.

Lemma four_bytes_not_ascii (c c1 c2 c3 : ascii) :
  four_bytes c c1 c2 c3 = true ->
  is_ascii c1 = false /\ is_ascii c2 = false /\ is_ascii c3 = false.
Proof.
  unfold four_bytes. intros H.
  apply andb_prop in H as [H H3]. apply andb_prop in H as [H H2].
  split; [| split; now apply continuation_not_ascii].
  repeat (apply orb_prop in H as [H|H]); apply andb_prop in H as [_ H];
    revert H; apply between_not_ascii; lia.
Qed.

(** Induction along the decoding loop: a text is empty, or starts with
    an ASCII byte, with a well-formed sequence, or with a byte that
    starts none, and the loop goes on behind it.  An ASCII byte and a
    well-formed sequence are found whatever follows them. *)
Lemma pieces_induction (P : string -> Prop) :
  P EmptyString ->
  (forall c r,
      is_ascii c = true ->
      (forall t, pieces (String c t) = Ascii7 c :: pieces t) ->
      P r -> P (String c r)) ->
  (forall c c1 r,
      is_ascii c = false -> is_ascii c1 = false ->
      (forall t, pieces (String c (String c1 t)) = Rune2 c c1 :: pieces t) ->
      P r -> P (String c (String c1 r))) ->
  (forall c c1 c2 r,
      is_ascii c = false -> is_ascii c1 = false -> is_ascii c2 = false ->
      (forall t, pieces (String c (String c1 (String c2 t))) = Rune3 c c1 c2 :: pieces t) ->
      P r -> P (String c (String c1 (String c2 r)))) ->
  (forall c c1 c2 c3 r,
      is_ascii c = false -> is_ascii c1 = false ->
      is_ascii c2 = false -> is_ascii c3 = false ->
      (forall t, pieces (String c (String c1 (String c2 (String c3 t))))
                 = Rune4 c c1 c2 c3 :: pieces t) ->
      P r -> P (String c (String c1 (String c2 (String c3 r))))) ->
  (forall c r,
      is_ascii c = false ->
      pieces (String c r) = Invalid c :: pieces r -> P r -> P (String c r)) ->
  forall s, P s.
Proof.
  intros Hempty Hascii Htwo Hthree Hfour Hinvalid s.
  assert (Hall : forall n s, String.length s <= n -> P s).
  { clear s. induction n as [|n IH]; intros s Hlen.
    - destruct s; [exact Hempty | cbn in Hlen; lia].
    - destruct s as [|c r]; [exact Hempty |].
      assert (Hr : P r) by (apply IH; cbn in Hlen; lia).
      destruct (is_ascii c) eqn:Hc.
      { apply Hascii; [exact Hc | | exact Hr]. intros t. cbn [pieces]. now rewrite Hc. }
      assert (Hbad : pieces (String c r) = Invalid c :: pieces r -> P (String c r))
        by (intros Hp; now apply Hinvalid).
      destruct r as [|c1 r1]; [apply Hbad; cbn [pieces]; now rewrite Hc |].
      destruct (two_bytes c c1) eqn:H2.
      { apply Htwo; [exact Hc | exact (two_bytes_not_ascii c c1 H2) | |].
        - intros t. cbn [pieces]. now rewrite Hc, H2.
        - apply IH. cbn in Hlen |- *. lia. }
      destruct r1 as [|c2 r2]; [apply Hbad; cbn [pieces]; now rewrite Hc, H2 |].
      destruct (three_bytes c c1 c2) eqn:H3.
      { destruct (three_bytes_not_ascii c c1 c2 H3).
        apply Hthree; [assumption | assumption | assumption | |].
        - intros t. cbn [pieces]. now rewrite Hc, H2, H3.
        - apply IH. cbn in Hlen |- *. lia. }
      destruct r2 as [|c3 r3]; [apply Hbad; cbn [pieces]; now rewrite Hc, H2, H3 |].
      destruct (four_bytes c c1 c2 c3) eqn:H4.
      { destruct (four_bytes_not_ascii c c1 c2 c3 H4) as (? & ? & ?).
        apply Hfour; [assumption | assumption | assumption | assumption | |].
        - intros t. cbn [pieces]. now rewrite Hc, H2, H3, H4.
        - apply IH. cbn in Hlen |- *. lia. }
      apply Hbad. cbn [pieces]. now rewrite Hc, H2, H3, H4. }
  now apply (Hall (String.length s)).
Qed.

(** A text that is valid UTF-8 is left as it is. *)
Lemma to_valid_utf8_valid (s : string) :
  valid_utf8 s = true -> to_valid_utf8 s = s.
Proof.
  unfold valid_utf8, to_valid_utf8.
  induction s as [|c r _ Hp IH|c c1 r _ _ Hp IH|c c1 c2 r _ _ _ Hp IH
                  |c c1 c2 c3 r _ _ _ _ Hp IH|c r Hbad Hp IH] using pieces_induction;
    [reflexivity | rewrite Hp; cbn [forallb join coerced_piece is_invalid negb andb append];
                   intros Hv; try discriminate Hv; now rewrite (IH Hv) ..].
Qed.

Lemma pieces_replacement (t : string) :
  pieces (REPLACEMENT ++ t) = Rune3 "239" "191" "189" :: pieces t.
Proof. reflexivity. Qed.

(** A coerced text is valid UTF-8, and coercing it again changes nothing. *)
Lemma valid_utf8_coerced (s : string) : valid_utf8 (to_valid_utf8 s) = true.
Proof.
  unfold valid_utf8, to_valid_utf8.
  induction s as [|c r _ Hp IH|c c1 r _ _ Hp IH|c c1 c2 r _ _ _ Hp IH
                  |c c1 c2 c3 r _ _ _ _ Hp IH|c r Hbad Hp IH] using pieces_induction;
    [reflexivity | rewrite Hp; cbn [join coerced_piece append];
                   first [rewrite Hp | rewrite pieces_replacement]; exact IH ..].
Qed.

Lemma to_valid_utf8_idempotent (s : string) :
  to_valid_utf8 (to_valid_utf8 s) = to_valid_utf8 s.
Proof. apply to_valid_utf8_valid, valid_utf8_coerced. Qed.

(** ** String literals *)

Lemma prepend_prepend (a b : string) (r : option (string * string)) :
  prepend a (prepend b r) = prepend (a ++ b) r.
Proof. destruct r as [[body rest]|]; cbn; [now rewrite append_assoc | reflexivity]. Qed.

Lemma unquote_escape_char (c : ascii) (r : string) :
  unquote (escape_char c ++ r)
  = prepend (if is_ascii c then String c EmptyString else REPLACEMENT) (unquote r).
Proof. each_byte c; reflexivity. Qed.

(** The reader takes a byte outside ASCII as it is. *)
Lemma unquote_raw (c : ascii) (r : string) :
  is_ascii c = false ->
  unquote (String c r) = prepend (String c EmptyString) (unquote r).
Proof. each_byte c; intros Hc; try discriminate Hc; reflexivity. Qed.

Lemma separator_bytes (c c1 c2 : ascii) :
  is_separator c c1 c2 = true ->
  c = "226"%char /\ c1 = "128"%char /\ (c2 = "168"%char \/ c2 = "169"%char).
Proof.
  unfold is_separator. intros H.
  apply andb_prop in H as [H H2]. apply andb_prop in H as [H0 H1].
  apply Ascii.eqb_eq in H0, H1.
  repeat split; auto.
  apply orb_prop in H2 as [H2|H2]; apply Ascii.eqb_eq in H2; auto.
Qed.

(** What the serializer writes for a piece reads back as the piece,
    coerced to valid UTF-8. *)
Lemma unquote_escape_piece (p : piece) (r : string) :
  match p with
  | Ascii7 c => is_ascii c = true
  | Rune2 c c1 => is_ascii c = false /\ is_ascii c1 = false
  | Rune3 c c1 c2 => is_ascii c = false /\ is_ascii c1 = false /\ is_ascii c2 = false
  | Rune4 c c1 c2 c3 =>
      is_ascii c = false /\ is_ascii c1 = false /\ is_ascii c2 = false /\ is_ascii c3 = false
  | Invalid c => is_ascii c = false
  end ->
  unquote (escape_piece p ++ r) = prepend (coerced_piece p) (unquote r).
Proof.
  destruct p as [c|c c1|c c1 c2|c c1 c2 c3|c]; cbn [escape_piece coerced_piece].
  - intros Hc. now rewrite unquote_escape_char, Hc.
  - intros (H0 & H1). cbn [append].
    rewrite (unquote_raw c), (unquote_raw c1), prepend_prepend by assumption.
    reflexivity.
  - intros (H0 & H1 & H2).
    destruct (is_separator c c1 c2) eqn:Hsep.
    + destruct (separator_bytes c c1 c2 Hsep) as (-> & -> & [-> | ->]); reflexivity.
    + cbn [append].
      rewrite (unquote_raw c), (unquote_raw c1), (unquote_raw c2), !prepend_prepend
        by assumption.
      reflexivity.
  - intros (H0 & H1 & H2 & H3). cbn [append].
    rewrite (unquote_raw c), (unquote_raw c1), (unquote_raw c2), (unquote_raw c3),
      !prepend_prepend by assumption.
    reflexivity.
  - intros Hc. now rewrite unquote_escape_char, Hc.
Qed.

(** A string literal reads back as the string, coerced to valid UTF-8. *)
Lemma unquote_escape (s rest : string) :
  unquote (escape s ++ String DQUOTE rest) = Some (to_valid_utf8 s, rest).
Proof.
  unfold escape, to_valid_utf8.
  induction s as [|c r Hc Hp IH|c c1 r H0 H1 Hp IH|c c1 c2 r H0 H1 H2 Hp IH
                  |c c1 c2 c3 r H0 H1 H2 H3 Hp IH|c r Hbad Hp IH] using pieces_induction;
    [reflexivity | rewrite Hp; cbn [join]; rewrite append_assoc,
                     unquote_escape_piece, IH by auto; reflexivity ..].
Qed.

Lemma read_string_escape (s rest : string) :
  read_string (escape s ++ String DQUOTE rest) = Some (to_valid_utf8 s, rest).
Proof.
  unfold read_string. now rewrite unquote_escape, to_valid_utf8_idempotent.
Qed.

Lemma quote_append (s rest : string) :
  quote s ++ rest = String DQUOTE (escape s ++ String DQUOTE rest).
Proof. unfold quote. cbn [append]. now rewrite append_assoc. Qed.

(** ** The first byte of a value *)

Lemma format_number_head (n : Z) :
  exists c r, format_number n = String c r /\ (is_digit c || Ascii.eqb c "-") = true.
Proof.
  unfold format_number.
  destruct n as [|p|p]; cbn [Z.to_int NilZero.string_of_int].
  - now exists "0"%char, EmptyString.
  - pose proof (Unsigned.to_uint_nonnil p) as Hnil.
    destruct (Pos.to_uint p); [now contradiction Hnil | ..];
      cbn; eexists _, _; split; reflexivity.
  - eexists _, _; split; reflexivity.
Qed.

Lemma number_start_facts (c : ascii) :
  (is_digit c || Ascii.eqb c "-") = true ->
  is_ws c = false /\ Ascii.eqb c "]" = false /\ Ascii.eqb c "}" = false.
Proof. each_byte c; intros Hc; try discriminate Hc; repeat split. Qed.

Lemma render_head (L : layout) (depth : nat) (doc : document) :
  exists c r, render L depth doc = String c r /\
    is_ws c = false /\ Ascii.eqb c "]" = false /\ Ascii.eqb c "}" = false.
Proof.
  destruct doc as [ | [] | n | s | [|x xs] | [|m ms] ];
    try (cbn; eexists _, _; split; [reflexivity | repeat split]).
  destruct (format_number_head n) as (c & r & Hn & Hc).
  exists c, r. split; [exact Hn | now apply number_start_facts].
Qed.

Lemma render_length (L : layout) (depth : nat) (doc : document) :
  1 <= String.length (render L depth doc).
Proof.
  destruct (render_head L depth doc) as (c & r & Hr & _).
  rewrite Hr. simpl. lia.
Qed.

Lemma skip_ws_render (L : layout) (depth : nat) (doc : document) (w rest : string) :
  all_ws w = true ->
  skip_ws (w ++ render L depth doc ++ rest) = render L depth doc ++ rest.
Proof.
  intros Hw. rewrite skip_ws_append by assumption.
  destruct (render_head L depth doc) as (c & r & Hr & Hc & _).
  rewrite Hr. cbn [append skip_ws]. now rewrite Hc.
Qed.

(** ** Unfolding the reader by one call *)

Lemma parse_value_number (f : nat) (n : Z) (rest : string) :
  ends_number rest = true ->
  parse_value (S f) (format_number n ++ rest) = Some (Number n, rest).
Proof.
  intros Hrest.
  pose proof (parse_number_format n rest Hrest) as Hparse.
  destruct (format_number_head n) as (c & r & Hn & Hc).
  destruct (number_start_facts c Hc) as (Hws & _).
  rewrite Hn in *. cbn [append] in *.
  cbn [parse_value skip_ws]. rewrite Hws, Hc, Hparse. reflexivity.
Qed.

Lemma parse_value_string (f : nat) (s rest : string) :
  parse_value (S f) (quote s ++ rest) = Some (Str (to_valid_utf8 s), rest).
Proof.
  rewrite quote_append. cbn -[read_string].
  now rewrite read_string_escape.
Qed.

Lemma parse_value_array (f : nat) (r : string) (c : ascii) (r' : string) :
  skip_ws r = String c r' ->
  Ascii.eqb c "]" = false ->
  parse_value (S f) (String "[" r) =
    match parse_elements f r with
    | Some (items, rest) => Some (Array items, rest)
    | None => None
    end.
Proof.
  intros Hr Hc. cbn -[parse_elements skip_ws]. cbn [skip_ws is_ws Ascii.eqb Bool.eqb orb].
  rewrite Hr, Hc. reflexivity.
Qed.

Lemma parse_value_object (f : nat) (r : string) (c : ascii) (r' : string) :
  skip_ws r = String c r' ->
  Ascii.eqb c "}" = false ->
  parse_value (S f) (String "{" r) =
    match parse_members f r with
    | Some (members, rest) => Some (Object members, rest)
    | None => None
    end.
Proof.
  intros Hr Hc. cbn -[parse_members skip_ws]. cbn [skip_ws is_ws Ascii.eqb Bool.eqb orb].
  rewrite Hr, Hc. reflexivity.
Qed.

(** ** Reading back what was written *)

Lemma delimited_ends_number (rest : string) :
  delimited rest = true -> ends_number rest = true.
Proof.
  destruct rest as [|c r]; [reflexivity |].
  unfold delimited, ends_number, continues_number.
  each_byte c; intros Hc; try discriminate Hc; reflexivity.
Qed.

Lemma delimited_after_ws (w : string) (c : ascii) (r : string) :
  all_ws w = true ->
  delimited (String c r) = true ->
  delimited (w ++ String c r) = true.
Proof.
  destruct w as [|x w]; [easy |].
  cbn [all_ws append delimited]. intros Hw _.
  apply andb_prop in Hw as [Hx _]. now rewrite Hx.
Qed.

Section ReadBack.
Variable L : layout.
Hypothesis newline_ws : forall depth, all_ws (newline L depth) = true.
Hypothesis after_colon_ws : all_ws (after_colon L) = true.

Let items (depth : nat) := more_items (render L depth) (newline L depth).
Let members (depth : nat) :=
  more_items (render_member L (render L depth)) (newline L depth).

(** What follows an element or a member is delimited: the next comma,
    or the white space before the closing bracket. *)
Lemma delimited_more {A} (item : A -> string) (sep : string) (l : list A)
    (tail : string) (close : ascii) (rest : string) :
  all_ws tail = true ->
  delimited (String close rest) = true ->
  delimited (more_items item sep l ++ tail ++ String close rest) = true.
Proof.
  intros Htail Hclose.
  destruct l as [|x l]; cbn [more_items append].
  - now apply delimited_after_ws.
  - reflexivity.
Qed.

Lemma parse_render (fuel : nat) :
  (forall doc depth w rest,
      all_ws w = true -> delimited rest = true ->
      2 * String.length (render L depth doc) <= fuel ->
      parse_value fuel (w ++ render L depth doc ++ rest) = Some (coerced doc, rest)) /\
  (forall x xs depth w tail rest,
      all_ws w = true -> all_ws tail = true ->
      2 * (String.length (render L depth x) + String.length (items depth xs)) + 1 <= fuel ->
      parse_elements fuel
        (w ++ render L depth x ++ items depth xs ++ tail ++ String "]" rest)
      = Some (map coerced (x :: xs), rest)) /\
  (forall m ms depth w tail rest,
      all_ws w = true -> all_ws tail = true ->
      2 * (String.length (render_member L (render L depth) m)
           + String.length (members depth ms)) + 1 <= fuel ->
      parse_members fuel
        (w ++ render_member L (render L depth) m ++ members depth ms
           ++ tail ++ String "}" rest)
      = Some (map (fun m => (to_valid_utf8 (fst m), coerced (snd m))) (m :: ms), rest)).
Proof.
  induction fuel as [|f (IHv & IHe & IHm)].
  - repeat split.
    + intros doc depth w rest _ _ Hfuel.
      pose proof (render_length L depth doc). lia.
    + intros; lia.
    + intros; lia.
  - repeat split.
    + (* a value *)
      intros doc depth w rest Hw Hrest Hfuel.
      assert (Hskip : parse_value (S f) (w ++ render L depth doc ++ rest)
                      = parse_value (S f) (render L depth doc ++ rest)).
      { cbn [parse_value]. now rewrite skip_ws_append. }
      rewrite Hskip. clear Hskip.
      destruct doc as [ | [] | n | s | [|x xs] | [|m ms] ]; try reflexivity.
      * apply parse_value_number. now apply delimited_ends_number.
      * apply parse_value_string.
      * cbn [render] in *. fold (items (S depth)) in *.
        rewrite !append_assoc. cbn [append].
        destruct (render_head L (S depth) x) as (c & r & Hx & _ & Hc & _).
        rewrite (parse_value_array f _ c
                   (r ++ items (S depth) xs ++ newline L depth ++ String "]" rest)).
        -- rewrite (IHe x xs (S depth) (newline L (S depth)) (newline L depth) rest);
             auto.
           unfold items, members in *.
           rewrite !length_append in Hfuel. cbn [String.length] in Hfuel.
           lia.
        -- rewrite skip_ws_render by auto. now rewrite Hx.
        -- exact Hc.
      * cbn [render] in *. fold (members (S depth)) in *.
        rewrite !append_assoc. cbn [append].
        assert (Hm : exists r, render_member L (render L (S depth)) m = String DQUOTE r).
        { unfold render_member, quote. cbn [append]. eauto. }
        destruct Hm as (r & Hm).
        rewrite (parse_value_object f _ DQUOTE
                   (r ++ members (S depth) ms ++ newline L depth ++ String "}" rest)).
        -- rewrite (IHm m ms (S depth) (newline L (S depth)) (newline L depth) rest);
             auto.
           unfold items, members in *.
           rewrite !length_append in Hfuel. cbn [String.length] in Hfuel.
           lia.
        -- rewrite skip_ws_append by auto. rewrite Hm. reflexivity.
        -- reflexivity.
    + (* the elements of an array *)
      intros x xs depth w tail rest Hw Htail Hfuel.
      cbn [parse_elements].
      rewrite (IHv x depth w (items depth xs ++ tail ++ String "]" rest)); auto.
      * destruct xs as [|y ys]; unfold items in Hfuel |- *; cbn [more_items] in Hfuel |- *.
        -- cbn [append]. rewrite skip_ws_append by assumption.
           reflexivity.
        -- rewrite !append_assoc. cbn [append skip_ws is_ws Ascii.eqb Bool.eqb orb].
           cbn [String.length] in Hfuel. rewrite !length_append in Hfuel.
           pose proof (render_length L depth x).
           fold (items depth ys).
           rewrite (IHe y ys depth (newline L depth) tail rest); auto.
           unfold items. lia.
      * now apply delimited_more.
      * pose proof (render_length L depth x). lia.
    + (* the members of an object *)
      intros [k d] ms depth w tail rest Hw Htail Hfuel.
      unfold render_member at 1 in Hfuel. unfold render_member at 1.
      cbn [fst snd] in *.
      rewrite !append_assoc, quote_append.
      cbn [parse_members]. rewrite skip_ws_append by assumption.
      cbn [skip_ws]. change (is_ws DQUOTE) with false. cbn iota.
      change (Ascii.eqb DQUOTE DQUOTE) with true. cbn iota.
      rewrite read_string_escape.
      cbn [append skip_ws is_ws Ascii.eqb Bool.eqb orb].
      rewrite !length_append in Hfuel. cbn [String.length] in Hfuel.
      rewrite (IHv d depth (after_colon L) (members depth ms ++ tail ++ String "}" rest));
        auto.
      * destruct ms as [|m' ms']; unfold members in Hfuel |- *; cbn [more_items] in Hfuel |- *.
        -- cbn [append]. rewrite skip_ws_append by assumption.
           reflexivity.
        -- rewrite !append_assoc. cbn [append skip_ws is_ws Ascii.eqb Bool.eqb orb].
           cbn [String.length] in Hfuel. rewrite !length_append in Hfuel.
           fold (members depth ms').
           rewrite (IHm m' ms' depth (newline L depth) tail rest); auto.
           unfold members. lia.
      * now apply delimited_more.
      * lia.
Qed.

End ReadBack.

Lemma delimited_ws (w : string) : all_ws w = true -> delimited w = true.
Proof.
  destruct w as [|c w]; [reflexivity |].
  cbn [all_ws delimited]. intros Hw.
  apply andb_prop in Hw as [Hc _]. now rewrite Hc.
Qed.

(** The text of a document, followed by white space only, reads back as
    the document with its strings coerced to valid UTF-8. *)
Lemma Unmarshal_render (L : layout) (doc : document) (trailing : string) :
  (forall depth, all_ws (newline L depth) = true) ->
  all_ws (after_colon L) = true ->
  all_ws trailing = true ->
  Unmarshal (render L 0 doc ++ trailing) = Some (coerced doc).
Proof.
  intros Hnl Hcolon Htrail. unfold Unmarshal.
  destruct (parse_render L Hnl Hcolon
              (2 * String.length (render L 0 doc ++ trailing) + 2)) as (Hvalue & _).
  assert (Hfuel : 2 * String.length (render L 0 doc)
                  <= 2 * String.length (render L 0 doc ++ trailing) + 2).
  { rewrite length_append. lia. }
  pose proof (Hvalue doc 0 EmptyString trailing eq_refl
                (delimited_ws trailing Htrail) Hfuel) as Hparse.
  cbn [append] in Hparse.
  now rewrite Hparse, Htrail.
Qed.

Lemma compact_is_ws (depth : nat) : all_ws (newline compact depth) = true.
Proof. reflexivity. Qed.

Lemma indented_is_ws (prefix indent : string) (depth : nat) :
  all_ws prefix = true -> all_ws indent = true ->
  all_ws (newline (indented prefix indent) depth) = true.
Proof.
  intros Hp Hi. cbn [newline indented].
  apply all_ws_append; [reflexivity |].
  apply all_ws_append; [exact Hp | now apply all_ws_repeat].
Qed.

(** ** Stripping the layout *)

Lemma strip_ws (w s : string) :
  all_ws w = true -> strip false false (w ++ s) = strip false false s.
Proof.
  induction w as [|c w IH]; [reflexivity |].
  cbn [all_ws append strip]. intros Hw.
  apply andb_prop in Hw as [Hc Hw].
  rewrite Hc. now apply IH.
Qed.

Lemma strip_escape_char (c : ascii) (r : string) :
  strip true false (escape_char c ++ r) = escape_char c ++ strip true false r.
Proof. each_byte c; reflexivity. Qed.

Lemma strip_raw (c : ascii) (r : string) :
  is_ascii c = false ->
  strip true false (String c r) = String c (strip true false r).
Proof. each_byte c; intros Hc; try discriminate Hc; reflexivity. Qed.

Lemma strip_escape_piece (p : piece) (r : string) :
  match p with
  | Ascii7 _ => True
  | Rune2 c c1 => is_ascii c = false /\ is_ascii c1 = false
  | Rune3 c c1 c2 => is_ascii c = false /\ is_ascii c1 = false /\ is_ascii c2 = false
  | Rune4 c c1 c2 c3 =>
      is_ascii c = false /\ is_ascii c1 = false /\ is_ascii c2 = false /\ is_ascii c3 = false
  | Invalid _ => True
  end ->
  strip true false (escape_piece p ++ r) = escape_piece p ++ strip true false r.
Proof.
  destruct p as [c|c c1|c c1 c2|c c1 c2 c3|c]; cbn [escape_piece coerced_piece].
  - intros _. apply strip_escape_char.
  - intros (H0 & H1). cbn [append].
    now rewrite (strip_raw c), (strip_raw c1) by assumption.
  - intros (H0 & H1 & H2).
    destruct (is_separator c c1 c2) eqn:Hsep.
    + destruct (separator_bytes c c1 c2 Hsep) as (-> & -> & [-> | ->]); reflexivity.
    + cbn [append].
      now rewrite (strip_raw c), (strip_raw c1), (strip_raw c2) by assumption.
  - intros (H0 & H1 & H2 & H3). cbn [append].
    now rewrite (strip_raw c), (strip_raw c1), (strip_raw c2), (strip_raw c3) by assumption.
  - intros _. apply strip_escape_char.
Qed.

Lemma strip_escape (s rest : string) :
  strip true false (escape s ++ String DQUOTE rest)
  = escape s ++ String DQUOTE (strip false false rest).
Proof.
  unfold escape.
  induction s as [|c r Hc Hp IH|c c1 r H0 H1 Hp IH|c c1 c2 r H0 H1 H2 Hp IH
                  |c c1 c2 c3 r H0 H1 H2 H3 Hp IH|c r Hbad Hp IH] using pieces_induction;
    [reflexivity | rewrite Hp; cbn [join]; rewrite !append_assoc,
                     strip_escape_piece, IH by auto; reflexivity ..].
Qed.

Lemma strip_quote (s rest : string) :
  strip false false (quote s ++ rest) = quote s ++ strip false false rest.
Proof.
  rewrite !quote_append. cbn -[escape]. now rewrite strip_escape.
Qed.

Lemma strip_uint (d : Decimal.uint) (rest : string) :
  strip false false (NilEmpty.string_of_uint d ++ rest)
  = NilEmpty.string_of_uint d ++ strip false false rest.
Proof. induction d; cbn; now rewrite ?IHd. Qed.

Lemma strip_number (n : Z) (rest : string) :
  strip false false (format_number n ++ rest) = format_number n ++ strip false false rest.
Proof.
  unfold format_number.
  destruct n as [|p|p]; cbn [Z.to_int NilZero.string_of_int]; [reflexivity | |];
    pose proof (Unsigned.to_uint_nonnil p) as Hnil;
    destruct (Pos.to_uint p) as [|d|d|d|d|d|d|d|d|d|d] eqn:Hp;
    try (now contradiction Hnil);
    cbn [NilZero.string_of_uint];
    try apply strip_uint;
    cbn [append strip is_ws Ascii.eqb Bool.eqb orb];
    f_equal; apply strip_uint.
Qed.

Section Strip.
Variable L : layout.
Hypothesis newline_ws : forall depth, all_ws (newline L depth) = true.
Hypothesis after_colon_ws : all_ws (after_colon L) = true.

Lemma strip_render (n : nat) :
  (forall doc depth rest,
      String.length (render L depth doc) <= n ->
      strip false false (render L depth doc ++ rest)
      = render compact depth doc ++ strip false false rest) /\
  (forall xs depth rest,
      String.length (more_items (render L depth) (newline L depth) xs) <= n ->
      strip false false (more_items (render L depth) (newline L depth) xs ++ rest)
      = more_items (render compact depth) EmptyString xs ++ strip false false rest) /\
  (forall ms depth rest,
      String.length (more_items (render_member L (render L depth)) (newline L depth) ms) <= n ->
      strip false false
        (more_items (render_member L (render L depth)) (newline L depth) ms ++ rest)
      = more_items (render_member compact (render compact depth)) EmptyString ms
          ++ strip false false rest).
Proof.
  induction n as [|n (IHv & IHi & IHm)].
  - repeat split.
    + intros doc depth rest Hn. pose proof (render_length L depth doc). lia.
    + intros [|x xs] depth rest Hn; [reflexivity |].
      cbn [more_items String.length append] in Hn. lia.
    + intros [|m ms] depth rest Hn; [reflexivity |].
      cbn [more_items String.length append] in Hn. lia.
  - assert (Hmember : forall m depth rest,
               String.length (render_member L (render L depth) m) <= n ->
               strip false false (render_member L (render L depth) m ++ rest)
               = render_member compact (render compact depth) m ++ strip false false rest).
    { intros [k d] depth rest Hn. unfold render_member in *. cbn [fst snd] in *.
      rewrite !length_append in Hn.
      rewrite !append_assoc, strip_quote.
      cbn [append strip is_ws Ascii.eqb Bool.eqb orb after_colon compact].
      rewrite strip_ws by assumption.
      rewrite IHv by lia. reflexivity. }
    repeat split.
    + intros doc depth rest Hn.
      destruct doc as [ | [] | k | s | [|x xs] | [|m ms] ]; try reflexivity.
      * apply strip_number.
      * apply strip_quote.
      * cbn [render] in *. cbn [newline compact].
        rewrite !length_append in Hn. cbn [String.length] in Hn.
        rewrite !append_assoc.
        cbn [append strip is_ws Ascii.eqb Bool.eqb orb].
        rewrite strip_ws by auto.
        rewrite IHv by lia. rewrite IHi by lia.
        rewrite strip_ws by auto. reflexivity.
      * cbn [render] in *. cbn [newline compact].
        rewrite !length_append in Hn. cbn [String.length] in Hn.
        rewrite !append_assoc.
        cbn [append strip is_ws Ascii.eqb Bool.eqb orb].
        rewrite strip_ws by auto.
        rewrite Hmember by lia. rewrite IHm by lia.
        rewrite strip_ws by auto. reflexivity.
    + intros [|x xs] depth rest Hn; [reflexivity |].
      cbn [more_items] in *.
      rewrite !length_append in Hn. cbn [String.length] in Hn.
      rewrite !append_assoc.
      cbn [append strip is_ws Ascii.eqb Bool.eqb orb].
      rewrite strip_ws by auto.
      rewrite IHv by lia. rewrite IHi by lia. reflexivity.
    + intros [|m ms] depth rest Hn; [reflexivity |].
      cbn [more_items] in *.
      rewrite !length_append in Hn. cbn [String.length] in Hn.
      rewrite !append_assoc.
      cbn [append strip is_ws Ascii.eqb Bool.eqb orb].
      rewrite strip_ws by auto.
      rewrite Hmember by lia. rewrite IHm by lia. reflexivity.
Qed.

Lemma Compact_render (doc : document) (trailing : string) :
  all_ws trailing = true ->
  Compact (render L 0 doc ++ trailing) = render compact 0 doc.
Proof.
  intros Htrail. unfold Compact.
  destruct (strip_render (String.length (render L 0 doc))) as (Hvalue & _).
  rewrite Hvalue by lia.
  rewrite <- (append_nil_r trailing), strip_ws by assumption.
  apply append_nil_r.
Qed.

End Strip.

(** ** The serializer writes the text of the snapshot's structure *)

(** Induction on Go values, through slices and structures. *)
Lemma value_induction (P : value -> Prop) :
  P VNil ->
  (forall b, P (VBool b)) ->
  (forall n, P (VInt n)) ->
  (forall s, P (VString s)) ->
  (forall items, Forall P items -> P (VSlice items)) ->
  (forall fields, Forall (fun kv => P (snd kv)) fields -> P (VStruct fields)) ->
  (forall target, P target -> P (VPointer target)) ->
  (forall type, P (VUnsupported type)) ->
  (forall type failure, P (VMarshaler type failure)) ->
  forall v, P v.
Proof.
  intros HNil HBool HInt HString HSlice HStruct HPointer HUnsupported HMarshaler.
  fix IH 1.
  intros [ | b | n | s | items | fields | target | type | type failure ];
    [ exact HNil | apply HBool | apply HInt | apply HString | | |
    | apply HUnsupported | apply HMarshaler ].
  - apply HSlice. induction items as [|x items IHitems]; constructor; [apply IH | exact IHitems].
  - apply HStruct. induction fields as [|kv fields IHfields]; constructor;
      [apply IH | exact IHfields].
  - apply HPointer. apply IH.
Qed.

Lemma more_items_map {A} (item : A -> string) (separator : string) (l : list A) :
  more_items (fun text => text) separator (map item l) = more_items item separator l.
Proof. induction l as [|x l IH]; cbn [map more_items]; [reflexivity | now rewrite IH]. Qed.

Lemma container_array (L : layout) (depth : nat) (docs : list document) :
  container L depth "[" "]" (map (render L (S depth)) docs) = render L depth (Array docs).
Proof.
  destruct docs as [|x xs]; [reflexivity |].
  cbn [map container render]. now rewrite more_items_map.
Qed.

Lemma container_object (L : layout) (depth : nat) (members : list (string * document)) :
  container L depth "{" "}" (map (render_member L (render L (S depth))) members)
  = render L depth (Object members).
Proof.
  destruct members as [|m ms]; [reflexivity |].
  cbn [map container render]. now rewrite more_items_map.
Qed.

(** A traversal writes the texts of the items when all of them have a
    structure, and fails when one has none. *)
Lemma traverse_all_some {A B} (s : A -> option B) (f : A -> string + error)
    (g : B -> string) (l : list A) :
  Forall (fun x => match s x with
                   | Some d => f x = inl (g d)
                   | None => exists e, f x = inr e
                   end) l ->
  match all_some (map s l) with
  | Some ds => traverse f l = inl (map g ds)
  | None => exists e, traverse f l = inr e
  end.
Proof.
  induction 1 as [|x l Hx _ IH]; cbn [map all_some traverse]; [reflexivity |].
  destruct (s x) as [d|].
  - rewrite Hx. destruct (all_some (map s l)) as [ds|]; cbn [option_map].
    + now rewrite IH.
    + destruct IH as [e He]. rewrite He. now exists e.
  - destruct Hx as [e He]. rewrite He. now exists e.
Qed.

(** The serializer and the structure agree: a value with a structure is
    written as the text of that document, a value without one makes the
    serializer fail. *)
Lemma encode_structure (v : value) :
  forall (L : layout) (depth : nat),
    match structure v with
    | Some doc => encode L depth v = inl (render L depth doc)
    | None => exists e, encode L depth v = inr e
    end.
Proof.
  induction v as [ | b | n | s | items IH | fields IH | target IH | type | type failure ]
    using value_induction; intros L depth; cbn [structure encode].
  - reflexivity.
  - now destruct b.
  - reflexivity.
  - reflexivity.
  - assert (Hitems : Forall (fun x => match structure x with
                                     | Some d => encode L (S depth) x = inl (render L (S depth) d)
                                     | None => exists e, encode L (S depth) x = inr e
                                     end) items).
    { revert IH. apply Forall_impl. intros x Hx. apply Hx. }
    apply traverse_all_some in Hitems.
    destruct (all_some (map structure items)) as [docs|]; cbn [option_map].
    + now rewrite Hitems, container_array.
    + destruct Hitems as [e He]. rewrite He. now exists e.
  - pose (s := fun kv : string * value =>
                 option_map (pair (fst kv)) (structure (snd kv))).
    pose (f := fun kv : string * value =>
                 match encode L (S depth) (snd kv) with
                 | inl text => inl (quote (fst kv) ++ ":" ++ after_colon L ++ text)
                 | inr e => inr e
                 end).
    assert (Hfields : Forall (fun kv => match s kv with
                                        | Some m => f kv = inl (render_member L (render L (S depth)) m)
                                        | None => exists e, f kv = inr e
                                        end) fields).
    { revert IH. apply Forall_impl. intros [k x] Hx. unfold s, f. cbn [fst snd] in *.
      specialize (Hx L (S depth)).
      destruct (structure x) as [d|]; cbn [option_map].
      - now rewrite Hx.
      - destruct Hx as [e He]. rewrite He. now exists e. }
    apply traverse_all_some in Hfields.
    fold s. fold f.
    destruct (all_some (map s fields)) as [members|]; cbn [option_map].
    + now rewrite Hfields, container_object.
    + destruct Hfields as [e He]. rewrite He. now exists e.
  - apply IH.
  - now eexists.
  - now eexists.
Qed.

Lemma MarshalIndent_document (v : value) (prefix indent data : string) :
  MarshalIndent v prefix indent = (data, None) ->
  exists doc, structure v = Some doc /\ data = render (indented prefix indent) 0 doc.
Proof.
  unfold MarshalIndent.
  pose proof (encode_structure v (indented prefix indent) 0) as Hv.
  destruct (structure v) as [doc|].
  - rewrite Hv. intros [= <-]. now exists doc.
  - destruct Hv as [e He]. rewrite He. discriminate.
Qed.

Lemma Marshal_document (v : value) (doc : document) :
  structure v = Some doc -> Marshal v = (render compact 0 doc, None).
Proof.
  intros Hdoc. unfold Marshal.
  pose proof (encode_structure v compact 0) as Hv.
  rewrite Hdoc in Hv. now rewrite Hv.
Qed.

(** A document whose strings are valid UTF-8 is left as it is. *)
Lemma coerced_utf8_document :
  forall doc, utf8_document doc = true -> coerced doc = doc.
Proof.
  fix IH 1.
  intros [ | b | n | s | items | members ]; cbn [utf8_document coerced];
    try reflexivity.
  - intros Hs. now rewrite to_valid_utf8_valid.
  - intros Hitems. f_equal.
    induction items as [|x items IHitems]; [reflexivity |].
    cbn [forallb map] in *. apply andb_prop in Hitems as [Hx Hitems].
    now rewrite (IH x Hx), (IHitems Hitems).
  - intros Hmembers. f_equal.
    induction members as [|[k d] members IHmembers]; [reflexivity |].
    cbn [forallb map fst snd] in *.
    apply andb_prop in Hmembers as [Hm Hmembers]. apply andb_prop in Hm as [Hk Hd].
    now rewrite (to_valid_utf8_valid k Hk), (IH d Hd), (IHmembers Hmembers).
Qed.

(** ** The serializer writes UTF-8 *)

Lemma valid_utf8_append (a b : string) :
  valid_utf8 a = true -> valid_utf8 (a ++ b) = valid_utf8 b.
Proof.
  unfold valid_utf8.
  induction a as [|c r _ Hp IH|c c1 r _ _ Hp IH|c c1 c2 r _ _ _ Hp IH
                  |c c1 c2 c3 r _ _ _ _ Hp IH|c r Hbad Hp IH] using pieces_induction;
    [reflexivity | cbn [append]; rewrite !Hp;
                   cbn [forallb is_invalid negb andb]; first [exact IH | discriminate] ..].
Qed.

Lemma valid_utf8_both (a b : string) :
  valid_utf8 a = true -> valid_utf8 b = true -> valid_utf8 (a ++ b) = true.
Proof. intros Ha Hb. now rewrite valid_utf8_append. Qed.

Lemma valid_utf8_escape_char (c : ascii) : valid_utf8 (escape_char c) = true.
Proof. each_byte c; reflexivity. Qed.

Lemma valid_utf8_escape (s : string) : valid_utf8 (escape s) = true.
Proof.
  unfold escape.
  induction s as [|c r Hc Hp IH|c c1 r _ _ Hp IH|c c1 c2 r _ _ _ Hp IH
                  |c c1 c2 c3 r _ _ _ _ Hp IH|c r Hbad Hp IH] using pieces_induction;
    [reflexivity | rewrite Hp; cbn [join]; apply valid_utf8_both; [| exact IH] ..].
  - apply valid_utf8_escape_char.
  - unfold valid_utf8. cbn [escape_piece coerced_piece]. now rewrite Hp.
  - cbn [escape_piece]. destruct (is_separator c c1 c2) eqn:Hsep.
    + destruct (separator_bytes c c1 c2 Hsep) as (-> & -> & [-> | ->]); reflexivity.
    + unfold valid_utf8. cbn [coerced_piece]. now rewrite Hp.
  - unfold valid_utf8. cbn [escape_piece coerced_piece]. now rewrite Hp.
  - apply valid_utf8_escape_char.
Qed.

Lemma valid_utf8_quote (s : string) : valid_utf8 (quote s) = true.
Proof.
  unfold quote. change (String DQUOTE ?x) with (String DQUOTE EmptyString ++ x).
  apply valid_utf8_both; [reflexivity |].
  apply valid_utf8_both; [apply valid_utf8_escape | reflexivity].
Qed.

Lemma valid_utf8_uint (d : Decimal.uint) : valid_utf8 (NilEmpty.string_of_uint d) = true.
Proof. induction d; cbn [NilEmpty.string_of_uint]; try reflexivity; exact IHd. Qed.

Lemma valid_utf8_number (n : Z) : valid_utf8 (format_number n) = true.
Proof.
  unfold format_number.
  destruct n as [|p|p]; cbn [Z.to_int NilZero.string_of_int]; [reflexivity | |];
    pose proof (Unsigned.to_uint_nonnil p) as Hnil;
    destruct (Pos.to_uint p) as [|d|d|d|d|d|d|d|d|d|d] eqn:Hp;
    try (now contradiction Hnil);
    cbn [NilZero.string_of_uint NilEmpty.string_of_uint];
    apply valid_utf8_uint.
Qed.

Lemma valid_utf8_ws (w : string) : all_ws w = true -> valid_utf8 w = true.
Proof.
  induction w as [|c w IH]; [reflexivity |].
  cbn [all_ws]. intros Hw. apply andb_prop in Hw as [Hc Hw].
  change (String c w) with (String c EmptyString ++ w).
  apply valid_utf8_both; [| now apply IH].
  revert Hc. each_byte c; intros Hc; try discriminate Hc; reflexivity.
Qed.

Section Utf8.
Variable L : layout.
Hypothesis newline_ws : forall depth, all_ws (newline L depth) = true.
Hypothesis after_colon_ws : all_ws (after_colon L) = true.

Lemma valid_utf8_more {A} (item : A -> string) (depth : nat) (l : list A) :
  Forall (fun x => valid_utf8 (item x) = true) l ->
  valid_utf8 (more_items item (newline L depth) l) = true.
Proof.
  induction 1 as [|x l Hx _ IH]; cbn [more_items]; [reflexivity |].
  apply valid_utf8_both; [reflexivity |].
  apply valid_utf8_both; [now apply valid_utf8_ws |].
  now apply valid_utf8_both.
Qed.

(** The text of a document is valid UTF-8, whatever bytes its strings
    hold. *)
Lemma valid_utf8_render :
  forall doc depth, valid_utf8 (render L depth doc) = true.
Proof.
  fix IH 1.
  assert (Hmember : forall depth m,
             valid_utf8 (render_member L (render L depth) m) = true).
  { intros depth m. unfold render_member.
    apply valid_utf8_both; [apply valid_utf8_quote |].
    apply valid_utf8_both; [reflexivity |].
    apply valid_utf8_both; [now apply valid_utf8_ws | apply IH]. }
  intros [ | [] | n | s | [|x xs] | [|m ms] ] depth; cbn [render];
    try reflexivity.
  - apply valid_utf8_number.
  - apply valid_utf8_quote.
  - apply valid_utf8_both; [reflexivity |].
    apply valid_utf8_both; [now apply valid_utf8_ws |].
    apply valid_utf8_both; [apply IH |].
    apply valid_utf8_both; [| apply valid_utf8_both; [now apply valid_utf8_ws | reflexivity]].
    apply valid_utf8_more.
    induction xs as [|y ys IHys]; constructor; [apply IH | exact IHys].
  - apply valid_utf8_both; [reflexivity |].
    apply valid_utf8_both; [now apply valid_utf8_ws |].
    apply valid_utf8_both; [apply Hmember |].
    apply valid_utf8_both; [| apply valid_utf8_both; [now apply valid_utf8_ws | reflexivity]].
    apply valid_utf8_more.
    induction ms as [|y ys IHys]; constructor; [apply Hmember | exact IHys].
Qed.

End Utf8.

(** ** The serializer and the reader together *)

Lemma tab_layout_is_ws (depth : nat) :
  all_ws (newline (indented EmptyString TAB) depth) = true.
Proof. now apply indented_is_ws. Qed.

(** What the program prints for a snapshot that serializes. *)
Lemma stdout_of_snapshot (env : Env value) (snapshot : value) (data : string) :
  facility env = (snapshot, None) ->
  marshal_indent snapshot EmptyString TAB = (data, None) ->
  exists doc, structure snapshot = Some doc /\
    stdout (run env) = render (indented EmptyString TAB) 0 doc ++ LF.
Proof.
  intros Hf Hm.
  destruct (MarshalIndent_document snapshot EmptyString TAB data Hm) as (doc & Hdoc & Hdata).
  exists doc. split; [exact Hdoc |].
  rewrite (run_succeeded env snapshot data Hf Hm).
  unfold stdout; cbn [trace_of written].
  now rewrite append_nil_r, Hdata.
Qed.

(** What the program prints for a snapshot that serializes is UTF-8
    text, whatever bytes the strings of the snapshot hold. *)
Lemma output_is_utf8 (env : Env value) (snapshot : value) (data : string) :
  facility env = (snapshot, None) ->
  marshal_indent snapshot EmptyString TAB = (data, None) ->
  valid_utf8 (stdout (run env)) = true.
Proof.
  intros Hf Hm.
  destruct (stdout_of_snapshot env snapshot data Hf Hm) as (doc & _ & ->).
  apply valid_utf8_both; [| reflexivity].
  apply valid_utf8_render; auto using tab_layout_is_ws.
Qed.

(** C4, as amended.  When the enumeration returns a snapshot that
    serializes, the snapshot is structurally equivalent to a document,
    and reading the program's standard output as JSON yields that
    document with its strings coerced to valid UTF-8: the very document
    when all its strings and member names are valid UTF-8. *)
Theorem output_reads_back_as_the_snapshot
    (env : Env value) (snapshot : value) (data : string) :
  facility env = (snapshot, None) ->
  marshal_indent snapshot EmptyString TAB = (data, None) ->
  exists doc, structure snapshot = Some doc /\
    Unmarshal (stdout (run env)) = Some (coerced doc) /\
    (utf8_document doc = true -> Unmarshal (stdout (run env)) = Some doc).
Proof.
  intros Hf Hm.
  destruct (stdout_of_snapshot env snapshot data Hf Hm) as (doc & Hdoc & Hout).
  exists doc. split; [exact Hdoc |].
  assert (Hread : Unmarshal (stdout (run env)) = Some (coerced doc)).
  { rewrite Hout. apply Unmarshal_render; auto using tab_layout_is_ws. }
  split; [exact Hread |].
  intros Hvalid. now rewrite Hread, coerced_utf8_document.
Qed.

(** C5, as amended.  When the enumeration returns a snapshot that
    serializes, the program's output with the white space outside string
    literals stripped is the compact serialization of the snapshot; it
    reads as the same value as the indented output does, the document
    the snapshot is structurally equivalent to with its strings coerced
    to valid UTF-8: that very document when all its strings and member
    names are valid UTF-8.  The layout does not change the encoded
    value. *)
Theorem stripped_output_is_the_compact_serialization
    (env : Env value) (snapshot : value) (data : string) :
  facility env = (snapshot, None) ->
  marshal_indent snapshot EmptyString TAB = (data, None) ->
  exists doc, structure snapshot = Some doc /\
    Marshal snapshot = (Compact (stdout (run env)), None) /\
    Unmarshal (Compact (stdout (run env))) = Some (coerced doc) /\
    Unmarshal (stdout (run env)) = Unmarshal (Compact (stdout (run env))) /\
    (utf8_document doc = true -> Unmarshal (Compact (stdout (run env))) = Some doc).
Proof.
  intros Hf Hm.
  destruct (stdout_of_snapshot env snapshot data Hf Hm) as (doc & Hdoc & Hout).
  exists doc. split; [exact Hdoc |].
  assert (Hstrip : Compact (stdout (run env)) = render compact 0 doc).
  { rewrite Hout. apply Compact_render; auto using tab_layout_is_ws. }
  assert (Hcompact : Unmarshal (render compact 0 doc) = Some (coerced doc)).
  { rewrite <- (append_nil_r (render compact 0 doc)).
    apply Unmarshal_render; auto using compact_is_ws. }
  rewrite Hstrip, Hcompact. repeat split.
  - now apply Marshal_document.
  - rewrite Hout. apply Unmarshal_render; auto using tab_layout_is_ws.
  - intros Hvalid. now rewrite coerced_utf8_document.
Qed.

(** ** The contract on the example runs *)

Lemma success_on_good_host :
  facility example.good_host = (example.snapshot, None) /\
  marshal_indent example.snapshot EmptyString TAB
    = (fst (MarshalIndent example.snapshot EmptyString TAB), None) /\
  stdout (run example.good_host)
    = fst (MarshalIndent example.snapshot EmptyString TAB) ++ LF /\
  writes (trace_of (run example.good_host))
    = [(Stdout, fst (MarshalIndent example.snapshot EmptyString TAB) ++ LF)] /\
  exit_status (run example.good_host) = Some 0%Z.
Proof.
  split; [reflexivity | split; [reflexivity |]].
  apply (success_prints_indented_json example.good_host example.snapshot); reflexivity.
Defined.

Lemma error_on_locked_host :
  facility example.locked_host = (VNil, Some example.permission_denied) /\
  stdout (run example.locked_host)
    = "error: open /sys/devices/system/cpu: permission denied" ++ LF /\
  exit_status (run example.locked_host) = Some 1%Z.
Proof.
  split; [reflexivity |].
  apply (enumeration_failure_prints_error
           example.locked_host VNil example.permission_denied); reflexivity.
Defined.

Lemma error_on_odd_host :
  facility example.odd_host = (example.unserializable, None) /\
  marshal_indent example.unserializable EmptyString TAB
    = (EmptyString, Some (UnsupportedTypeError "chan int")) /\
  writes (trace_of (run example.odd_host))
    = [(Stdout, "error: json: unsupported type: chan int" ++ LF)] /\
  stdout (run example.odd_host) = "error: json: unsupported type: chan int" ++ LF /\
  String.prefix "error: " (stdout (run example.odd_host)) = true /\
  line_feeds (stdout (run example.odd_host)) = 1 /\
  exit_status (run example.odd_host) = Some 1%Z.
Proof.
  split; [reflexivity | split; [reflexivity |]].
  apply (serialization_failure_prints_error_only
           example.odd_host example.unserializable EmptyString
           (UnsupportedTypeError "chan int")); reflexivity.
Defined.

Lemma good_host_reads_back :
  facility example.good_host = (example.snapshot, None) /\
  snd (marshal_indent example.snapshot EmptyString TAB) = None /\
  structure example.snapshot = Some example.snapshot_document /\
  utf8_document example.snapshot_document = true /\
  Unmarshal (stdout (run example.good_host)) = Some example.snapshot_document.
Proof.
  split; [reflexivity | split; [reflexivity | split; [reflexivity | split; [reflexivity |]]]].
  destruct (output_reads_back_as_the_snapshot example.good_host example.snapshot
              (fst (MarshalIndent example.snapshot EmptyString TAB)) eq_refl eq_refl)
    as (doc & Hdoc & _ & Hread).
  injection Hdoc as <-. apply Hread. reflexivity.
Defined.

Lemma good_host_strips_to_compact :
  facility example.good_host = (example.snapshot, None) /\
  snd (marshal_indent example.snapshot EmptyString TAB) = None /\
  structure example.snapshot = Some example.snapshot_document /\
  utf8_document example.snapshot_document = true /\
  Marshal example.snapshot = (Compact (stdout (run example.good_host)), None) /\
  Unmarshal (Compact (stdout (run example.good_host))) = Some example.snapshot_document /\
  Unmarshal (stdout (run example.good_host))
    = Unmarshal (Compact (stdout (run example.good_host))).
Proof.
  split; [reflexivity | split; [reflexivity | split; [reflexivity | split; [reflexivity |]]]].
  destruct (stripped_output_is_the_compact_serialization example.good_host example.snapshot
              (fst (MarshalIndent example.snapshot EmptyString TAB)) eq_refl eq_refl)
    as (doc & Hdoc & Hcompact & _ & Hsame & Hread).
  injection Hdoc as <-.
  split; [exact Hcompact | split; [apply Hread; reflexivity | exact Hsame]].
Defined.

(** ** Where the claims as first stated fail *)

(** C3: the error message of the serializer may hold a line feed; the
    output is then the error line and a second line. *)
Lemma error_message_of_two_lines :
  facility example.probed_host = (example.probed, None) /\
  marshal_indent example.probed EmptyString TAB
    = (EmptyString, Some (MarshalerError "main.Probe" example.probe_failure)) /\
  stdout (run example.probed_host)
    = "error: json: error calling MarshalJSON for type main.Probe: read failed:" ++ LF
      ++ "device busy" ++ LF /\
  line_feeds (stdout (run example.probed_host)) = 2 /\
  exit_status (run example.probed_host) = Some 1%Z.
Proof. repeat split. Qed.

(** C4: a string that is not UTF-8 serializes, with the escape of the
    replacement character for each byte that is out of place, and reads
    back as another string than the one the facility returned. *)
Lemma latin1_string_does_not_read_back :
  facility example.latin1_host = (example.latin1, None) /\
  snd (marshal_indent example.latin1 EmptyString TAB) = None /\
  exit_status (run example.latin1_host) = Some 0%Z /\
  structure example.latin1
    = Some (Object [("vendor", Str ("Soci" ++ String "233" "t" ++ String "233" EmptyString))]) /\
  Unmarshal (stdout (run example.latin1_host))
    = Some (Object [("vendor", Str ("Soci" ++ REPLACEMENT ++ "t" ++ REPLACEMENT))]) /\
  String.eqb ("Soci" ++ String "233" "t" ++ String "233" EmptyString)
             ("Soci" ++ REPLACEMENT ++ "t" ++ REPLACEMENT) = false.
Proof. repeat split. Qed.

(** C5: for a string cut in the middle of a UTF-8 sequence, the stripped
    output and the indented output read as the same value, which is not
    the value the facility returned. *)
Lemma truncated_string_is_not_the_same_value :
  facility example.truncated_host = (example.truncated, None) /\
  snd (marshal_indent example.truncated EmptyString TAB) = None /\
  structure example.truncated
    = Some (Array [Str ("caf" ++ String "195" EmptyString); Number 1]) /\
  Unmarshal (Compact (stdout (run example.truncated_host)))
    = Some (Array [Str ("caf" ++ REPLACEMENT); Number 1]) /\
  Unmarshal (stdout (run example.truncated_host))
    = Some (Array [Str ("caf" ++ REPLACEMENT); Number 1]) /\
  String.eqb ("caf" ++ String "195" EmptyString) ("caf" ++ REPLACEMENT) = false.
Proof. repeat split. Qed.

Lemma same_message_same_output :
  same_answer (VNil, Some example.permission_denied)
              (example.snapshot, Some example.same_message) /\
  stdout (run (mkEnv ["machine-resources"] (VNil, Some example.permission_denied)))
    = stdout (run (mkEnv ["machine-resources"; "--verbose"]
                     (example.snapshot, Some example.same_message))) /\
  stderr (run (mkEnv ["machine-resources"] (VNil, Some example.permission_denied)))
    = stderr (run (mkEnv ["machine-resources"; "--verbose"]
                     (example.snapshot, Some example.same_message))) /\
  exit_status (run (mkEnv ["machine-resources"] (VNil, Some example.permission_denied)))
    = exit_status (run (mkEnv ["machine-resources"; "--verbose"]
                          (example.snapshot, Some example.same_message))).
Proof.
  split; [reflexivity |].
  apply (deterministic_in_the_answer
           ["machine-resources"] ["machine-resources"; "--verbose"]
           (VNil, Some example.permission_denied)
           (example.snapshot, Some example.same_message)).
  reflexivity.
Defined.


(** * Further properties of the reporter *)

(** Case analysis on the path a run takes, with the run's equation. *)
Ltac on_each_path env :=
  let r := fresh "r" in
  let e := fresh "e" in
  let data := fresh "data" in
  let Hf := fresh "Hf" in
  let Hm := fresh "Hm" in
  destruct (facility env) as [r [e|]] eqn:Hf;
  [ rewrite (run_enumeration_failed env r e Hf)
  | destruct (marshal_indent r EmptyString TAB) as [data [e|]] eqn:Hm;
    [ rewrite (run_serialization_failed env r data e Hf Hm)
    | rewrite (run_succeeded env r data Hf Hm) ] ].

Section ReporterOutput.
Context {Resources : Type} `{Serializer Resources}.

(** Whatever path a run takes, it performs exactly one write, on
    standard output, and the text written ends with a line feed: the
    output is never empty and never lacks its final line terminator. *)
Theorem every_run_writes_one_terminated_text (env : Env Resources) :
  exists body,
    writes (trace_of (run env)) = [(Stdout, body ++ LF)] /\
    stdout (run env) = body ++ LF.
Proof.
  on_each_path env.
  - exists ("error: " ++ Error e). unfold stdout; cbn [trace_of writes written].
    now rewrite append_nil_r, append_assoc.
  - exists ("error: " ++ Error e). unfold stdout; cbn [trace_of writes written].
    now rewrite append_nil_r, append_assoc.
  - exists data. unfold stdout; cbn [trace_of writes written].
    now rewrite append_nil_r.
Qed.

Lemma no_error_prefix (data : string) :
  String.get 0 data <> Some "e"%char ->
  String.prefix "error: " (data ++ LF) = false.
Proof.
  destruct data as [|c r]; [reflexivity |].
  cbn [String.get append String.prefix]. intros Hc.
  destruct (ascii_dec "e" c) as [<-|_]; [now contradiction Hc | reflexivity].
Qed.

(** Errors are reported on standard output, so a caller has to tell them
    from a result by the text.  When the serializer never produces a text
    that starts with the letter e (no JSON text does), it can: the run
    failed, with status 1, exactly when its output starts with [error: ]. *)
Theorem failure_is_visible_on_stdout (env : Env Resources) :
  (forall v data, marshal_indent v EmptyString TAB = (data, None) ->
                  String.get 0 data <> Some "e"%char) ->
  (exit_status (run env) = Some 1%Z <->
   String.prefix "error: " (stdout (run env)) = true) /\
  (exit_status (run env) = Some 0%Z <->
   String.prefix "error: " (stdout (run env)) = false).
Proof.
  intros Hjson.
  on_each_path env;
    unfold stdout; cbn [trace_of written exit_status]; rewrite append_nil_r.
  - rewrite prefix_append. repeat split; intros; congruence.
  - rewrite prefix_append. repeat split; intros; congruence.
  - rewrite (no_error_prefix data (Hjson r data Hm)).
    repeat split; intros; congruence.
Qed.

End ReporterOutput.

Lemma render_first_byte (L : layout) (depth : nat) (doc : document) :
  String.get 0 (render L depth doc) <> Some "e"%char.
Proof.
  destruct doc as [ | [] | n | s | [|x xs] | [|m ms] ]; try (cbn; discriminate).
  destruct (format_number_head n) as (c & r & Hn & Hc).
  cbn [render]. rewrite Hn. cbn [String.get].
  intros [= ->]. discriminate Hc.
Qed.

Lemma MarshalIndent_first_byte (v : value) (prefix indent data : string) :
  MarshalIndent v prefix indent = (data, None) ->
  String.get 0 data <> Some "e"%char.
Proof.
  intros Hm.
  destruct (MarshalIndent_document v prefix indent data Hm) as (doc & _ & ->).
  apply render_first_byte.
Qed.

Lemma failure_is_visible_on_odd_host :
  (exit_status (run example.odd_host) = Some 1%Z <->
   String.prefix "error: " (stdout (run example.odd_host)) = true) /\
  (exit_status (run example.odd_host) = Some 0%Z <->
   String.prefix "error: " (stdout (run example.odd_host)) = false).
Proof.
  apply (failure_is_visible_on_stdout example.odd_host).
  intros v data. apply MarshalIndent_first_byte.
Defined.


(** * The packaging scripts *)

Import sh.

(** ** Running a script one command at a time *)

Lemma eval_assoc {A B C} (m : script A) (k1 : A -> script B) (k2 : B -> script C)
    (sys : system) (s : state) :
  bind (bind m k1) k2 sys s = bind m (fun x => bind (k1 x) k2) sys s.
Proof. unfold bind. now destruct (m sys s). Qed.

Lemma eval_call {A} (c : command) (k : reply -> script A) (sys : system) (s : state) :
  bind (call c) k sys s
  = k (sys (past s) c) sys
      (mkState (past s ++ [Ran c (status (sys (past s) c))])%list (status (sys (past s) c))).
Proof. reflexivity. Qed.

Lemma eval_errexit {A} (k : unit -> script A) (sys : system) (s : state) :
  bind errexit k sys s
  = if Z.eqb (last s) 0 then k tt sys s else Stopped (last s) (past s).
Proof. unfold bind, errexit. now destruct (Z.eqb (last s) 0). Qed.

Lemma eval_true {A} (k : unit -> script A) (sys : system) (s : state) :
  bind true_ k sys s = k tt sys (mkState (past s) 0).
Proof. reflexivity. Qed.

Lemma eval_ret {A B} (a : A) (k : A -> script B) (sys : system) (s : state) :
  bind (ret a) k sys s = k a sys s.
Proof. reflexivity. Qed.

Lemma eval_last_call (c : command) (k : reply -> script unit) (sys : system) (s : state) :
  bind (call c) k sys s = bind (call c) (fun r => bind (k r) ret) sys s.
Proof.
  rewrite !eval_call. unfold bind, ret.
  now destruct (k _ sys _) as [[] ?| |].
Qed.

(** One step: the next command gets a status, zero or not. *)
Ltac sh_step sys :=
  first
    [ rewrite eval_assoc
    | rewrite eval_ret
    | rewrite eval_true
    | rewrite eval_call; cbv beta iota delta [past last];
      match goal with
      | |- context [sys ?h ?c] =>
          let st := fresh "st" in
          let out := fresh "out" in
          let Hst := fresh "Hst" in
          destruct (sys h c) as [st out];
          cbv beta iota delta [status output];
          try (destruct (Z.eqb st 0) eqn:Hst;
               [apply Z.eqb_eq in Hst; subst st |])
      end
    | rewrite eval_errexit; cbv beta iota delta [past last];
      first [ rewrite Z.eqb_refl
            | match goal with Hst : Z.eqb ?st 0 = false |- _ => rewrite Hst end ]
    | match goal with
      | |- context [errexit sys ?s] =>
          unfold errexit; cbv beta iota delta [past last];
          first [ rewrite Z.eqb_refl
                | match goal with Hst : Z.eqb ?st 0 = false |- _ => rewrite Hst end ]
      | |- context [true_ sys ?s] => unfold true_; cbv beta iota delta [past last]
      end ];
  cbv beta iota.

(** Runs a script to its outcomes, one goal per path. *)
Ltac sh_run sys := repeat sh_step sys; cbn [app].


Ltac postrm_open :=
  unfold run, postrm.main, postrm.purge, simple, if_then, or_true.

(** ** debian/maas-common.postrm *)

(** Called with anything but [purge], the script runs one command, the
    removal of the rsyslog snippet, and ends with that command's status:
    the account, the logs and the state under /var/lib/maas are left
    alone. *)
Theorem remove_keeps_the_account_and_the_data (sys : system) (arg1 : string) :
  arg1 <> "purge" ->
  let conf := cmd ["rm"; "-f"; "/etc/rsyslog.d/99-maas.conf"] in
  history_of (run sys (postrm.main arg1)) = [Ran conf (status (sys [] conf))] /\
  exit_status (run sys (postrm.main arg1)) = Some (status (sys [] conf)).
Proof.
  intros Harg conf.
  apply String.eqb_neq in Harg.
  postrm_open. rewrite Harg.
  rewrite eval_true, eval_call. cbv beta iota delta [past last]. cbn [app].
  fold conf. unfold errexit. cbv beta iota delta [past last].
  destruct (Z.eqb (status (sys [] conf)) 0) eqn:Hs; cbn.
  - apply Z.eqb_eq in Hs. now rewrite Hs.
  - split; reflexivity.
Qed.

Lemma fail_fast_spec (h : history) :
  postrm_facts.fail_fast h = true ->
  forall before c st rest,
    h = (before ++ Ran c st :: rest)%list ->
    postrm_facts.is_rm c = true -> st <> 0%Z -> rest = [].
Proof.
  induction h as [|e h IH]; intros Hh before c st rest Heq Hrm Hst.
  - now destruct before.
  - destruct before as [|e' before]; cbn in Heq; injection Heq as -> ->.
    + cbn in Hh. rewrite Hrm in Hh.
      apply Z.eqb_neq in Hst. rewrite Hst in Hh. cbn in Hh.
      destruct rest; [reflexivity | discriminate Hh].
    + apply (IH) with (before := before) (c := c) (st := st); auto.
      destruct e'; cbn in Hh; [apply andb_prop in Hh as [_ Hh] |]; exact Hh.
Qed.

Lemma last_event (before rest : history) (e : event) :
  rest = [] -> List.last (before ++ e :: rest)%list e = e.
Proof. intros ->. apply last_last. Qed.

(** What every run of the script satisfies: no event follows a failed
    removal, and the exit status is the status of the last command,
    which is a removal. *)
Lemma postrm_stops_at_failures (sys : system) (arg1 : string) :
  postrm_facts.fail_fast (history_of (run sys (postrm.main arg1))) = true /\
  forall d, exit_status (run sys (postrm.main arg1))
            = match List.last (history_of (run sys (postrm.main arg1))) d with
              | Ran c st => if postrm_facts.is_rm c then Some st else None
              | Replaced _ => None
              end.
Proof.
  postrm_open.
  destruct (String.eqb arg1 "purge"); sh_run sys;
    cbn [history_of exit_status past last postrm_facts.fail_fast postrm_facts.is_rm
         words cmd cmd_to String.eqb Ascii.eqb Bool.eqb andb negb Z.eqb List.last];
    repeat match goal with
           | Hst : Z.eqb ?st 0 = false |- _ => rewrite Hst
           end;
    split; reflexivity.
Qed.

(** Once a removal has failed nothing else is run: the failed removal is
    the last event of the run and its status is the script's. *)
Theorem nothing_runs_after_a_failed_removal
    (sys : system) (arg1 : string) (before rest : history) (c : command) (st : Z) :
  history_of (run sys (postrm.main arg1)) = (before ++ Ran c st :: rest)%list ->
  postrm_facts.is_rm c = true ->
  st <> 0%Z ->
  rest = [] /\ exit_status (run sys (postrm.main arg1)) = Some st.
Proof.
  intros Heq Hrm Hst.
  destruct (postrm_stops_at_failures sys arg1) as [Hff Hexit].
  assert (Hrest : rest = []) by (eapply fail_fast_spec; eauto).
  split; [exact Hrest |].
  rewrite (Hexit (Ran c st)), Heq, (last_event before rest _ Hrest), Hrm.
  reflexivity.
Qed.

(** A purge does not fail on the account: when every removal succeeds,
    the script ends with status 0 and has run the eight removals in the
    order of the script, whatever [getent], [deluser] and [delgroup]
    returned. *)
Theorem purge_succeeds_whatever_the_account_commands_return (sys : system) :
  (forall h c, postrm_facts.is_rm c = true -> status (sys h c) = 0%Z) ->
  exit_status (run sys (postrm.main "purge")) = Some 0%Z /\
  filter postrm_facts.is_rm (commands (history_of (run sys (postrm.main "purge"))))
    = postrm.removals.
Proof.
  intros Hrm.
  assert (Hok : forall h ws st out,
             sys h (cmd ("rm" :: ws)) = mkReply st out -> Z.eqb st 0 = false -> False).
  { intros h ws st out Hsys Hst.
    pose proof (Hrm h (cmd ("rm" :: ws)) eq_refl) as H0.
    rewrite Hsys in H0. cbn in H0. subst st. discriminate Hst. }
  postrm_open. cbn [String.eqb Ascii.eqb Bool.eqb].
  repeat
    (first
       [ rewrite eval_assoc
       | rewrite eval_ret
       | rewrite eval_true
       | rewrite eval_call; cbv beta iota delta [past last];
         match goal with
         | |- context [sys ?h ?c] =>
             let st := fresh "st" in
             let out := fresh "out" in
             let Hsys := fresh "Hsys" in
             let Hst := fresh "Hst" in
             destruct (sys h c) as [st out] eqn:Hsys;
             cbv beta iota delta [status output];
             destruct (Z.eqb st 0) eqn:Hst;
             [ apply Z.eqb_eq in Hst; subst st
             | try (exfalso; exact (Hok _ _ _ _ Hsys Hst)) ];
             clear Hsys
         end
       | rewrite eval_errexit; cbv beta iota delta [past last]; rewrite Z.eqb_refl
       | match goal with
         | |- context [errexit sys ?s] =>
             unfold errexit; cbv beta iota delta [past last]; rewrite Z.eqb_refl
         end ];
     cbv beta iota).
  all: split; reflexivity.
Qed.

(** The account is deleted only on a purge and only when [getent] finds
    it; then both [deluser] and [delgroup] are run, the second also
    when the first fails. *)
Theorem account_is_deleted_only_when_it_exists (sys : system) (arg1 : string) :
  let getent := cmd_to ["getent"; "passwd"; "maas"] "/dev/null" in
  let ran c := In c (commands (history_of (run sys (postrm.main arg1)))) in
  (ran (cmd ["deluser"; "maas"]) <-> arg1 = "purge" /\ status (sys [] getent) = 0%Z) /\
  (ran (cmd ["delgroup"; "maas"]) <-> arg1 = "purge" /\ status (sys [] getent) = 0%Z).
Proof.
  intros getent ran. subst ran getent.
  postrm_open.
  destruct (String.eqb_spec arg1 "purge") as [->|Harg].
  - rewrite eval_assoc, eval_assoc, eval_call. cbv beta iota delta [past last].
    destruct (sys [] (cmd_to ["getent"; "passwd"; "maas"] "/dev/null")) as [st0 out0].
    cbv beta iota delta [status].
    destruct (Z.eqb st0 0) eqn:Hst0; sh_run sys;
      cbn [history_of commands map past In];
      (split; (split;
       [ intros Hin;
         first [ split; [reflexivity | now apply Z.eqb_eq]
               | repeat (destruct Hin as [Hin|Hin]; [discriminate Hin |]);
                 contradiction Hin ]
       | intros [_ Hg];
         first [ subst st0; discriminate Hst0 | tauto ] ])).
  - sh_run sys; cbn [history_of commands map past In];
      (split; (split;
       [ intros [Hin|[]]; discriminate Hin | intros [Heq _]; contradiction ])).
Qed.

(** The script ends with status 0 exactly when it has run the removal of
    the rsyslog snippet and that removal succeeded. *)
Theorem success_means_the_rsyslog_snippet_was_removed (sys : system) (arg1 : string) :
  exit_status (run sys (postrm.main arg1)) = Some 0%Z <->
  In (Ran (cmd ["rm"; "-f"; "/etc/rsyslog.d/99-maas.conf"]) 0)
     (history_of (run sys (postrm.main arg1))).
Proof.
  postrm_open.
  destruct (String.eqb arg1 "purge"); sh_run sys;
    cbn [history_of exit_status past last In];
    (split;
     [ intros Hexit;
       first [ now repeat (first [left; reflexivity | right])
             | injection Hexit as Hz; subst; discriminate ]
     | intros Hin; try reflexivity;
       repeat (destruct Hin as [Hin|Hin];
               [ first [ discriminate Hin
                       | injection Hin as Hz; subst; discriminate ] | ]);
       contradiction Hin ]).
Qed.


(** ** A program logic for scripts *)

Import snap.

Section Ensures.
Variable sys : system.

Context {A B : Type}.
Variables (P : history -> Prop) (E : Z -> history -> Prop) (X : history -> Prop).

Lemma ensures_bind (m : script A) (k : A -> script B)
    (Q1 : A -> history -> Prop) (Q2 : B -> history -> Prop) :
  ensures sys P m Q1 E X ->
  (forall a, ensures sys (Q1 a) (k a) Q2 E X) ->
  ensures sys P (bind m k) Q2 E X.
Proof.
  intros Hm Hk s Hs. unfold bind.
  specialize (Hm s Hs). destruct (m sys s) as [a s'| |]; auto.
  now apply Hk.
Qed.

Lemma ensures_ret (a : A) (Q : A -> history -> Prop) :
  (forall h, P h -> Q a h) -> ensures sys P (ret a) Q E X.
Proof. intros HQ s Hs. now apply HQ. Qed.

Lemma ensures_call (c : command) (Q : reply -> history -> Prop) :
  (forall h, P h -> Q (sys h c) (h ++ [Ran c (status (sys h c))])%list) ->
  ensures sys P (call c) Q E X.
Proof. intros HQ s Hs. now apply HQ. Qed.

Lemma ensures_exec (c : command) (Q : A -> history -> Prop) :
  (forall h, P h -> X (h ++ [Replaced c])%list) ->
  ensures sys P (exec c) Q E X.
Proof. intros HX s Hs. now apply HX. Qed.

Lemma ensures_exit (code : Z) (Q : A -> history -> Prop) :
  (forall h, P h -> E code h) ->
  ensures sys P (exit_ code) Q E X.
Proof. intros HE s Hs. now apply HE. Qed.

Lemma ensures_if (b : bool) (m1 m2 : script A) (Q : A -> history -> Prop) :
  (b = true -> ensures sys P m1 Q E X) ->
  (b = false -> ensures sys P m2 Q E X) ->
  ensures sys P (if b then m1 else m2) Q E X.
Proof. destruct b; auto. Qed.

Lemma ensures_false (m : script A) (Q : A -> history -> Prop) :
  (forall h, P h -> False) -> ensures sys P m Q E X.
Proof. intros HP s Hs. now destruct (HP _ Hs). Qed.

End Ensures.

Section Derived.
Variable sys : system.
Variables (P : history -> Prop) (E : Z -> history -> Prop) (X : history -> Prop).

Lemma ensures_true (Q : unit -> history -> Prop) :
  (forall h, P h -> Q tt h) -> ensures sys P true_ Q E X.
Proof. intros HQ s Hs. now apply HQ. Qed.

Lemma ensures_simple (c : command) (Q : unit -> history -> Prop) :
  (forall h, P h -> Q tt (h ++ [Ran c 0])%list) ->
  (forall h st, P h -> st <> 0%Z -> E st (h ++ [Ran c st])%list) ->
  ensures sys P (simple c) Q E X.
Proof.
  intros HQ HE s Hs. unfold simple, bind, call, errexit. cbn [last past].
  destruct (Z.eqb_spec (status (sys (past s) c)) 0) as [H0|Hn]; cbn [past].
  - rewrite H0. now apply HQ.
  - now apply HE.
Qed.

Lemma ensures_assigned (c : command) (Q : string -> history -> Prop) :
  (forall h, P h -> status (sys h c) = 0%Z ->
             Q (chomp (output (sys h c))) (h ++ [Ran c 0])%list) ->
  (forall h st, P h -> st <> 0%Z -> E st (h ++ [Ran c st])%list) ->
  ensures sys P (assigned c) Q E X.
Proof.
  intros HQ HE s Hs. unfold assigned, bind, call, errexit, ret. cbn [last past].
  destruct (Z.eqb_spec (status (sys (past s) c)) 0) as [H0|Hn]; cbn [past].
  - rewrite H0. now apply HQ.
  - now apply HE.
Qed.

Lemma ensures_test (c : command) (Q : bool -> history -> Prop) :
  (forall h, P h -> Q (Z.eqb (status (sys h c)) 0) (h ++ [Ran c (status (sys h c))])%list) ->
  ensures sys P (test c) Q E X.
Proof. intros HQ s Hs. now apply HQ. Qed.

Lemma ensures_capture (c : command) (Q : string -> history -> Prop) :
  (forall h, P h -> Q (chomp (output (sys h c))) (h ++ [Ran c (status (sys h c))])%list) ->
  ensures sys P (capture c) Q E X.
Proof. intros HQ s Hs. now apply HQ. Qed.

Lemma ensures_if_then (c : command) (body : script unit)
    (R : history -> Prop) (Q : unit -> history -> Prop) :
  (forall h, P h -> status (sys h c) = 0%Z -> R (h ++ [Ran c 0])%list) ->
  (forall h st, P h -> status (sys h c) = st -> st <> 0%Z -> Q tt (h ++ [Ran c st])%list) ->
  ensures sys R body Q E X ->
  ensures sys P (if_then c body) Q E X.
Proof.
  intros HR HQ Hbody s Hs. unfold if_then, bind, call. cbn [past].
  destruct (Z.eqb_spec (status (sys (past s) c)) 0) as [H0|Hn].
  - apply Hbody. cbn [past]. rewrite H0. now apply HR.
  - unfold true_. cbn [past]. now apply (HQ (past s)).
Qed.

Lemma ensures_unquoted (fs : files) (word : string) (Q : list string -> history -> Prop) :
  (forall h, P h -> Q (flat_map (expand fs h) (fields word)) h) ->
  ensures sys P (unquoted fs word) Q E X.
Proof. intros HQ s Hs. now apply HQ. Qed.

Lemma ensures_or_true (c : command) (Q : unit -> history -> Prop) :
  (forall h, P h -> Q tt (h ++ [Ran c (status (sys h c))])%list) ->
  ensures sys P (or_true c) Q E X.
Proof.
  intros HQ s Hs. unfold or_true, bind, call, ret, true_. cbn [past].
  destruct (Z.eqb (status (sys (past s) c)) 0); now apply HQ.
Qed.

End Derived.

(** ** The refresh hook *)

Import script_facts.

Lemma Forall_snoc {T} (ok : T -> Prop) (l : list T) (x : T) :
  Forall ok l -> ok x -> Forall ok (l ++ [x]).
Proof. intros Hl Hx. apply Forall_app. split; [exact Hl | now constructor]. Qed.

Lemma append_cancel (p a b : string) : p ++ a = p ++ b -> a = b.
Proof.
  induction p as [|c p IH]; cbn; [easy |].
  intros [= Heq]. now apply IH.
Qed.

Lemma append_longer (p t w : string) :
  String.length w < String.length t -> p ++ t <> w.
Proof.
  intros Hlen Heq. apply (f_equal String.length) in Heq.
  rewrite length_append in Heq. lia.
Qed.

Ltac hook_open :=
  unfold hook.main, hook.directories, hook.samples, hook.layout, hook.version,
    hook.upgrade_from_9_5, hook.migration_done, both;
  cbv zeta.

(** Walks a script with one invariant on the history, leaving what each
    command has to satisfy to [finish]. *)
Ltac keep I finish :=
  repeat
    lazymatch goal with
    | |- ensures _ _ (bind _ _) _ _ _ => eapply ensures_bind with (Q1 := fun _ => I)
    | |- forall _, ensures _ _ _ _ _ _ => intro
    | |- ensures _ _ (if _ then _ else _) _ _ _ => apply ensures_if; intros ?
    | |- ensures _ _ (simple _) _ _ _ => apply ensures_simple; intros; finish
    | |- ensures _ _ (assigned _) _ _ _ => apply ensures_assigned; intros; finish
    | |- ensures _ _ (test _) _ _ _ => apply ensures_test; intros; finish
    | |- ensures _ _ (capture _) _ _ _ => apply ensures_capture; intros; finish
    | |- ensures _ _ (or_true _) _ _ _ => apply ensures_or_true; intros; finish
    | |- ensures _ _ (unquoted _ _) _ _ _ => apply ensures_unquoted; intros; finish
    | |- ensures _ _ (if_then _ _) _ _ _ =>
        apply ensures_if_then with (R := I); [intros; finish | intros; finish | ]
    | |- ensures _ _ true_ _ _ _ => apply ensures_true; intros; finish
    | |- ensures _ _ (ret _) _ _ _ => apply ensures_ret; intros; finish
    | |- ensures _ _ (exit_ _) _ _ _ => apply ensures_exit; intros; finish
    | |- ensures _ _ (exec _) _ _ _ => apply ensures_exec; intros; finish
    end.

(** What a run that satisfies a specification ends in. *)
Lemma ensures_run {A} (sys : system) (m : script A)
    (P : history -> Prop) (Q : A -> history -> Prop)
    (E : Z -> history -> Prop) (X : history -> Prop) :
  ensures sys P m Q E X -> P [] ->
  match run sys m with
  | Next a s => Q a (past s)
  | Stopped code h => E code h
  | Handed h => X h
  end.
Proof. intros Hm HP. exact (Hm (mkState [] 0) HP). Qed.

Ltac finish_succeeded :=
  first
    [ exact I
    | assumption
    | apply Forall_snoc; [assumption |];
      first [ left; reflexivity | right; reflexivity | left; assumption ] ].

(** The hook hands over to the migration only at its end, right after
    [snapctl start] succeeded, and only when no command before failed,
    the tests of conditions apart. *)
Theorem migration_starts_only_after_success (sys : system) (fs : files) (v : vars) (h : history) :
  run sys (hook.main fs v) = Handed h ->
  (exists before,
      h = (before ++ [Ran (hook.snapctl_start v) 0; Replaced (hook.migrate v)])%list) /\
  Forall succeeded_or_exempt h.
Proof.
  intros Hrun.
  assert (Hall : ensures sys (Forall succeeded_or_exempt) (hook.main fs v)
                   (fun _ _ => False) (fun _ _ => True)
                   (fun h => (exists before,
                                 h = (before ++ [Ran (hook.snapctl_start v) 0;
                                                 Replaced (hook.migrate v)])%list)
                             /\ Forall succeeded_or_exempt h)).
  { unfold hook.main.
    do 4 (eapply ensures_bind with (Q1 := fun _ => Forall succeeded_or_exempt);
          [ hook_open; keep (Forall succeeded_or_exempt) finish_succeeded | intros _ ]).
    eapply ensures_bind
      with (Q1 := fun _ h => (exists before, h = (before ++ [Ran (hook.snapctl_start v) 0])%list)
                             /\ Forall succeeded_or_exempt h).
    - apply ensures_simple; intros; [| exact I].
      split; [now eexists | finish_succeeded].
    - intros _. apply ensures_exec. intros h0 [[before ->] Hok].
      split.
      + exists before. now rewrite <- app_assoc.
      + now apply Forall_snoc. }
  pose proof (ensures_run _ _ _ _ _ _ Hall (Forall_nil _)) as Hend.
  now rewrite Hrun in Hend.
Qed.

(** *** What the hook removes *)

Ltac finish_removes :=
  first
    [ assumption
    | apply Forall_snoc; [assumption |];
      first [ exact I
            | intros Hhead; first [ discriminate Hhead
                                  | left; reflexivity
                                  | right; reflexivity ] ] ].

(** The only things the hook ever removes are its two scratch
    directories, the upgrade's working directory and [data-10]: no run
    removes the database, its 9.5 copy or anything else. *)
Theorem hook_removes_only_its_scratch_directories
    (sys : system) (fs : files) (v : vars) (c : command) (st : Z) :
  In (Ran c st) (history_of (run sys (hook.main fs v))) ->
  head c = "rm" ->
  c = cmd ["rm"; "-rf"; hook.data_10 v] \/ c = cmd ["rm"; "-rf"; hook.pg_upgrade_dir v].
Proof.
  intros Hin.
  assert (Hall : ensures sys (Forall (removes_scratch_only v)) (hook.main fs v)
                   (fun _ => Forall (removes_scratch_only v))
                   (fun _ => Forall (removes_scratch_only v))
                   (Forall (removes_scratch_only v))).
  { hook_open. keep (Forall (removes_scratch_only v)) finish_removes. }
  pose proof (ensures_run _ _ _ _ _ _ Hall (Forall_nil _)) as Hend.
  assert (Hh : Forall (removes_scratch_only v) (history_of (run sys (hook.main fs v)))).
  { destruct (run sys (hook.main fs v)); cbn [history_of]; tauto. }
  rewrite Forall_forall in Hh. exact (Hh _ Hin).
Qed.

(** *** The guards of the hook *)

Ltac finish_not_called :=
  first
    [ assumption
    | tauto
    | congruence
    | apply Forall_snoc; [assumption |];
      unfold not_called; cbn; intuition discriminate
    | split; [ first [assumption | discriminate] |];
      first [ assumption
            | apply Forall_snoc; [assumption |];
              unfold not_called; cbn; intuition discriminate ] ].

(** When both the old database directory and the new one exist, the hook
    does not move the one over the other: it stops with a status that is
    not zero, and has run no [mv] and not started the services. *)
Theorem hook_refuses_to_merge_two_databases (sys : system) (fs : files) (v : vars) :
  (forall h, status (sys h (cmd ["["; "-d"; SNAP_COMMON v ++ "/db"; "]"])) = 0%Z) ->
  (forall h, status (sys h (cmd ["["; "-d"; hook.data v; "]"])) = 0%Z) ->
  exists code h,
    run sys (hook.main fs v) = Stopped code h /\
    code <> 0%Z /\
    Forall (not_called ["mv"; "snapctl"]) h.
Proof.
  intros Hdb Hdata.
  set (I := Forall (not_called ["mv"; "snapctl"])).
  assert (Hall : ensures sys I (hook.main fs v)
                   (fun _ _ => False) (fun code h => code <> 0%Z /\ I h) (fun _ => False)).
  { unfold hook.main.
    do 2 (eapply ensures_bind with (Q1 := fun _ => I);
          [ hook_open; keep I finish_not_called | intros _ ]).
    eapply ensures_bind with (Q1 := fun _ _ => False);
      [ | intros _; apply ensures_false; tauto ].
    hook_open.
    eapply ensures_bind with (Q1 := fun _ => I); [ keep I finish_not_called | intros _ ].
    eapply ensures_bind with (Q1 := fun _ _ => False);
      [ | intros _; apply ensures_false; tauto ].
    apply ensures_if_then with (R := I).
    - intros; finish_not_called.
    - intros h st _ Hst Hne. rewrite Hdb in Hst. congruence.
    - eapply ensures_bind with (Q1 := fun _ _ => False);
        [ | intros _; apply ensures_false; tauto ].
      apply ensures_if_then with (R := I).
      + intros; finish_not_called.
      + intros h st _ Hst Hne. rewrite Hdata in Hst. congruence.
      + keep I finish_not_called. }
  pose proof (ensures_run _ _ _ _ _ _ Hall (Forall_nil _)) as Hend.
  destruct (run sys (hook.main fs v)) as [a s|code h|h]; try contradiction.
  exists code, h. tauto.
Qed.

Lemma ensures_assume {A} (sys : system) (fact : Prop) (P : history -> Prop) (m : script A)
    (Q : A -> history -> Prop) (E : Z -> history -> Prop) (X : history -> Prop) :
  (fact -> ensures sys P m Q E X) ->
  ensures sys (fun h => fact /\ P h) m Q E X.
Proof. intros Hm s [Hfact Hs]. now apply Hm. Qed.

Lemma not_called_fewer (names names' : list string) (h : history) :
  incl names' names ->
  Forall (not_called names) h -> Forall (not_called names') h.
Proof.
  intros Hincl. apply Forall_impl. intros e He Hin. apply He. now apply Hincl.
Qed.

Lemma called_in_history (names : list string) (h : history) (c : command) :
  Forall (not_called names) h -> In c (commands h) -> ~ In (head c) names.
Proof.
  intros Hall Hin. unfold commands in Hin. apply in_map_iff in Hin as (e & <- & He).
  rewrite Forall_forall in Hall. exact (Hall e He).
Qed.

Ltac not_called_before :=
  first [ assumption
        | eapply not_called_fewer; [| eassumption];
          intros x Hx; cbn in Hx |- *; tauto ].

Ltac not_called_event :=
  first [ not_called_before
        | apply Forall_snoc;
          [ not_called_before | unfold not_called; cbn; intuition discriminate ] ].

(** The version file as bash reads it: a NUL byte and the final line
    feed are not part of the version. *)
Lemma chomp_of_a_version_file :
  chomp (String "1" (String "0" (String "000" LF))) = "10" /\
  chomp ("9.5" ++ LF ++ LF) = "9.5".
Proof. split; reflexivity. Qed.

Ltac finish_version :=
  first
    [ assumption
    | not_called_event
    | split; [ first [assumption | discriminate] |];
      first [ left; not_called_event | right; not_called_event ] ].

(** When the version file of the database names neither 9.5 nor 10, a
    hook that gets to read it stops with a status that is not zero,
    without starting the services. *)
Theorem unknown_database_version_stops_the_hook (sys : system) (fs : files) (v : vars) :
  (forall h, chomp (output (sys h (cmd ["cat"; hook.data v ++ "/PG_VERSION"]))) <> "9.5" /\
             chomp (output (sys h (cmd ["cat"; hook.data v ++ "/PG_VERSION"]))) <> "10") ->
  In (cmd ["cat"; hook.data v ++ "/PG_VERSION"])
     (commands (history_of (run sys (hook.main fs v)))) ->
  exists code h,
    run sys (hook.main fs v) = Stopped code h /\
    code <> 0%Z /\
    Forall (not_called ["snapctl"]) h.
Proof.
  intros Hver Hcat.
  set (I := Forall (not_called ["cat"; "snapctl"])).
  assert (Hall : ensures sys I (hook.main fs v)
                   (fun _ _ => False)
                   (fun code h => code <> 0%Z /\
                                  (Forall (not_called ["cat"]) h \/
                                   Forall (not_called ["snapctl"]) h))
                   (Forall (not_called ["cat"]))).
  { unfold hook.main.
    do 3 (eapply ensures_bind with (Q1 := fun _ => I);
          [ hook_open; keep I finish_version | intros _ ]).
    eapply ensures_bind with (Q1 := fun _ => I).
    - hook_open.
      eapply ensures_bind with (Q1 := fun _ => I); [ keep I finish_version | intros has ].
      apply ensures_if; intros _; [| keep I finish_version].
      eapply ensures_bind
        with (Q1 := fun ver h => (ver <> "9.5" /\ ver <> "10")
                                 /\ Forall (not_called ["snapctl"]) h).
      + apply ensures_assigned; intros.
        * split; [apply Hver | not_called_event].
        * finish_version.
      + intros ver. apply ensures_assume. intros [H95 H10].
        apply String.eqb_neq in H95, H10. rewrite H95, H10. cbn [negb].
        eapply ensures_bind with (Q1 := fun _ => Forall (not_called ["snapctl"])).
        * apply ensures_simple; intros; [not_called_event |].
          split; [assumption | right; not_called_event].
        * intros _. apply ensures_exit. intros h Hh.
          split; [discriminate | now right].
    - intros _.
      eapply ensures_bind with (Q1 := fun _ => Forall (not_called ["cat"])).
      + apply ensures_simple; intros; [not_called_event |].
        split; [assumption | left; not_called_event].
      + intros _. apply ensures_exec. intros.
        apply Forall_snoc; [assumption |].
        unfold not_called; cbn. intros [Hhead|[]].
        symmetry in Hhead. revert Hhead. apply append_longer. cbn. lia. }
  pose proof (ensures_run _ _ _ _ _ _ Hall (Forall_nil _)) as Hend.
  destruct (run sys (hook.main fs v)) as [a s|code h|h]; cbn [history_of] in Hcat;
    try contradiction.
  - exists code, h. destruct Hend as [Hcode [Hfree|Hsnap]]; [| tauto].
    destruct (called_in_history _ _ _ Hfree Hcat). now left.
  - destruct (called_in_history _ _ _ Hend Hcat). now left.
Qed.

Ltac finish_left_alone :=
  first
    [ assumption
    | apply Forall_snoc; [assumption |];
      split;
      [ unfold not_called; cbn;
        first [ intuition discriminate
              | intros [Hhead|[Hhead|[Hhead|[]]]];
                symmetry in Hhead; revert Hhead; apply append_longer; cbn; lia ]
      | unfold set_aside; cbn [command_of];
        first [ discriminate
              | intros [= Hword _]; apply append_cancel in Hword; discriminate Hword
              | intros [= Hword]; symmetry in Hword; revert Hword;
                apply append_longer; cbn; lia ] ] ].

(** A database already at version 10 is left as it is: the hook runs
    neither [initdb] nor [pg_upgrade] (nothing through [sudo]), changes
    directory nowhere, removes nothing and does not move the data
    directory away. *)
Theorem database_at_version_10_is_left_alone (sys : system) (fs : files) (v : vars) :
  (forall h, chomp (output (sys h (cmd ["cat"; hook.data v ++ "/PG_VERSION"]))) = "10") ->
  Forall (left_alone v) (history_of (run sys (hook.main fs v))).
Proof.
  intros Hver.
  set (I := Forall (left_alone v)).
  assert (Hall : ensures sys I (hook.main fs v) (fun _ => I) (fun _ => I) I).
  { unfold hook.main.
    do 3 (eapply ensures_bind with (Q1 := fun _ => I);
          [ hook_open; keep I finish_left_alone | intros _ ]).
    eapply ensures_bind with (Q1 := fun _ => I);
      [ | intros _; keep I finish_left_alone ].
    hook_open.
    eapply ensures_bind with (Q1 := fun _ => I); [ keep I finish_left_alone | intros has ].
    apply ensures_if; intros _; [| keep I finish_left_alone].
    eapply ensures_bind with (Q1 := fun ver h => ver = "10" /\ I h).
    - apply ensures_assigned; intros; [| finish_left_alone].
      split; [apply Hver | finish_left_alone].
    - intros ver. apply ensures_assume. intros ->. cbn [String.eqb Ascii.eqb Bool.eqb negb].
      keep I finish_left_alone. }
  pose proof (ensures_run _ _ _ _ _ _ Hall (Forall_nil _)) as Hend.
  destruct (run sys (hook.main fs v)); cbn [history_of]; tauto.
Qed.

(** *** The order of the upgrade *)

Ltac not_moved_event :=
  apply Forall_snoc; [assumption |];
  unfold not_moved_yet, move_into_place; cbn [command_of];
  first [ discriminate
        | intros [= Hword]; apply append_cancel in Hword; discriminate Hword
        | intros [= Hword _]; apply append_cancel in Hword; discriminate Hword
        | intros [= Hword]; revert Hword; apply append_longer; cbn; lia ].

Ltac finish_not_moved :=
  first
    [ assumption
    | not_moved_event
    | left; first [assumption | not_moved_event] ].

Ltac in_history := apply in_or_app; first [left; assumption | right; now left].

(** The new database is moved into place only in runs in which the old
    one was set aside as [data-9.5] and both [initdb] and [pg_upgrade]
    succeeded: a failed upgrade never replaces the data directory. *)
Theorem new_database_replaces_the_old_only_after_the_upgrade
    (sys : system) (fs : files) (v : vars) (st : Z) :
  In (Ran (move_into_place v) st) (history_of (run sys (hook.main fs v))) ->
  upgraded v (history_of (run sys (hook.main fs v))).
Proof.
  intros Hin.
  set (I := Forall (not_moved_yet v)).
  set (K := fun h => I h \/ upgraded v h).
  assert (Hall : ensures sys I (hook.main fs v) (fun _ => K) (fun _ => K) K).
  { unfold hook.main.
    do 3 (eapply ensures_bind with (Q1 := fun _ => I);
          [ hook_open; keep I finish_not_moved | intros _ ]).
    eapply ensures_bind with (Q1 := fun _ => K).
    - unfold hook.version, both.
      eapply ensures_bind with (Q1 := fun _ => I); [ keep I finish_not_moved | intros has ].
      apply ensures_if; intros _; [| keep I finish_not_moved].
      eapply ensures_bind with (Q1 := fun _ => I); [ keep I finish_not_moved | intros ver ].
      apply ensures_if; intros _; [| keep I finish_not_moved].
      unfold hook.upgrade_from_9_5. cbv zeta.
      eapply ensures_bind with (Q1 := fun _ => I); [ keep I finish_not_moved | intros _ ].
      set (A1 := fun h => I h /\ In (Ran (set_aside v) 0) h).
      eapply ensures_bind with (Q1 := fun _ => A1).
      { apply ensures_simple; intros; [| finish_not_moved].
        split; [not_moved_event | in_history]. }
      intros _.
      do 6 (eapply ensures_bind with (Q1 := fun _ => A1);
            [ apply ensures_simple;
              [ intros h [HI H1]; split; [not_moved_event | in_history]
              | intros h st' [HI H1] _; left; not_moved_event ]
            | intros _ ]).
      set (A2 := fun h => A1 h /\ In (Ran (hook.initdb v) 0) h).
      eapply ensures_bind with (Q1 := fun _ => A2).
      { apply ensures_simple.
        - intros h [HI H1]. repeat split; [not_moved_event | in_history | in_history].
        - intros h st' [HI H1] _; left; not_moved_event. }
      intros _.
      set (A3 := fun h => A2 h /\ In (Ran (hook.pg_upgrade v) 0) h).
      eapply ensures_bind with (Q1 := fun _ => A3).
      { apply ensures_simple.
        - intros h [[HI H1] H2].
          repeat split; [not_moved_event | in_history | in_history | in_history].
        - intros h st' [[HI H1] H2] _; left; not_moved_event. }
      intros _.
      do 2 (eapply ensures_bind with (Q1 := fun _ => A3);
            [ apply ensures_simple;
              [ intros h [[[HI H1] H2] H3];
                repeat split; [not_moved_event | in_history | in_history | in_history]
              | intros h st' [[[HI H1] H2] H3] _; left; not_moved_event ]
            | intros _ ]).
      apply ensures_simple.
      + intros h [[[HI H1] H2] H3]. right. repeat split; in_history.
      + intros h st' [[[HI H1] H2] H3] _. right. repeat split; in_history.
    - intros _.
      assert (Hkeep : forall h e, K h -> not_moved_yet v e -> K (h ++ [e])%list).
      { intros h e [HI|(H1 & H2 & H3)] He.
        - left. now apply Forall_snoc.
        - right. repeat split; in_history. }
      eapply ensures_bind with (Q1 := fun _ => K).
      + apply ensures_simple; intros; apply Hkeep; auto; discriminate.
      + intros _. apply ensures_exec. intros. apply Hkeep; auto.
        unfold not_moved_yet, move_into_place, hook.migrate. cbn [command_of].
        discriminate. }
  pose proof (ensures_run _ _ _ _ _ _ Hall (Forall_nil _)) as Hend.
  assert (HK : K (history_of (run sys (hook.main fs v)))).
  { destruct (run sys (hook.main fs v)); cbn [history_of]; tauto. }
  destruct HK as [HI|Hup]; [| exact Hup].
  unfold I in HI. rewrite Forall_forall in HI.
  now destruct (HI _ Hin).
Qed.

(** ** The launcher of chronyd *)

Lemma has_append (p : ascii -> bool) (a b : string) :
  has p (a ++ b) = has p a || has p b.
Proof.
  induction a as [|c a IH]; cbn [append has]; [reflexivity |].
  now rewrite IH, orb_assoc.
Qed.

Lemma fields_from_word (word w rest : string) :
  has is_ifs w = false ->
  fields_from word (w ++ rest) = fields_from (word ++ w) rest.
Proof.
  revert word. induction w as [|c w IH]; intros word Hw; cbn [append].
  - now rewrite append_nil_r.
  - cbn [has] in Hw. apply orb_false_elim in Hw as [Hc Hw].
    cbn [fields_from]. rewrite Hc, IH by assumption.
    now rewrite append_assoc.
Qed.

Lemma plain_parts (s : string) :
  plain s = true -> has is_ifs s = false /\ has is_pattern s = false.
Proof.
  unfold plain. intros H. apply andb_prop in H as [Hi Hp].
  now apply negb_true_iff in Hi, Hp.
Qed.

Lemma fields_one_word (w : string) :
  has is_ifs w = false -> w <> EmptyString -> fields w = [w].
Proof.
  intros Hw Hne. unfold fields.
  pose proof (fields_from_word EmptyString w EmptyString Hw) as Hf.
  rewrite append_nil_r in Hf. cbn [append fields_from] in Hf. rewrite Hf.
  destruct w; [congruence | reflexivity].
Qed.

(** A field without a pattern character is kept, whatever files there are. *)
Lemma expand_plain (fs : files) (h : history) (w : string) :
  has is_pattern w = false -> expand fs h w = [w].
Proof. intros Hw. unfold expand. now rewrite Hw. Qed.

(** An unquoted word made of a plain text and a literal path is one word. *)
Lemma expansion_of_path (fs : files) (h : history) (s lit : string) :
  plain s = true -> plain lit = true -> lit <> EmptyString ->
  flat_map (expand fs h) (fields (s ++ lit)) = [s ++ lit].
Proof.
  intros Hs Hlit Hne.
  destruct (plain_parts s Hs) as [Hsi Hsp], (plain_parts lit Hlit) as [Hli Hlp].
  rewrite fields_one_word.
  - cbn [flat_map]. rewrite expand_plain; [reflexivity |].
    now rewrite has_append, Hsp, Hlp.
  - now rewrite has_append, Hsi, Hli.
  - destruct s; [exact Hne | discriminate].
Qed.

(** The options of chronyd, unquoted, are the four fixed words, the path
    of the configuration and, in a container, [-x]. *)
Lemma expansion_of_options (fs : files) (h : history) (data : string) (in_container : bool) :
  plain data = true ->
  flat_map (expand fs h)
    (fields (if in_container
             then ("-u root -d -f " ++ data ++ "/etc/chrony/chrony.conf") ++ " -x"
             else "-u root -d -f " ++ data ++ "/etc/chrony/chrony.conf"))
  = List.app ["-u"; "root"; "-d"; "-f"; data ++ "/etc/chrony/chrony.conf"]
             (if in_container then ["-x"] else []).
Proof.
  intros Hd. destruct (plain_parts data Hd) as [Hi Hp].
  assert (Hword : has is_ifs (data ++ "/etc/chrony/chrony.conf") = false)
    by now rewrite has_append, Hi.
  assert (Hpat : has is_pattern (data ++ "/etc/chrony/chrony.conf") = false)
    by now rewrite has_append, Hp.
  assert (Hne : data ++ "/etc/chrony/chrony.conf" <> EmptyString)
    by (destruct data; discriminate).
  assert (Hfields :
            fields (if in_container
                    then ("-u root -d -f " ++ data ++ "/etc/chrony/chrony.conf") ++ " -x"
                    else "-u root -d -f " ++ data ++ "/etc/chrony/chrony.conf")
            = List.app ["-u"; "root"; "-d"; "-f"; data ++ "/etc/chrony/chrony.conf"]
                       (if in_container then ["-x"] else [])).
  { destruct in_container; unfold fields;
      cbn [append fields_from is_ifs Ascii.eqb Bool.eqb orb].
    - rewrite fields_from_word by exact Hword.
      cbn [append fields_from is_ifs Ascii.eqb Bool.eqb orb].
      destruct (data ++ "/etc/chrony/chrony.conf"); [congruence | reflexivity].
    - fold (fields (data ++ "/etc/chrony/chrony.conf")).
      now rewrite fields_one_word. }
  rewrite Hfields.
  destruct in_container; cbn [List.app flat_map];
    rewrite (expand_plain fs h (data ++ "/etc/chrony/chrony.conf") Hpat);
    reflexivity.
Qed.

Lemma expansion_in_container (fs : files) (h : history) (data : string) :
  plain data = true ->
  flat_map (expand fs h)
    (fields (("-u root -d -f " ++ data ++ "/etc/chrony/chrony.conf") ++ " -x"))
  = ["-u"; "root"; "-d"; "-f"; data ++ "/etc/chrony/chrony.conf"; "-x"].
Proof. exact (expansion_of_options fs h data true). Qed.

Lemma expansion_on_host (fs : files) (h : history) (data : string) :
  plain data = true ->
  flat_map (expand fs h) (fields ("-u root -d -f " ++ data ++ "/etc/chrony/chrony.conf"))
  = ["-u"; "root"; "-d"; "-f"; data ++ "/etc/chrony/chrony.conf"].
Proof. exact (expansion_of_options fs h data false). Qed.

Lemma eval_unquoted {A} (fs : files) (word : string) (k : list string -> script A)
    (sys : system) (s : state) :
  bind (unquoted fs word) k sys s
  = k (flat_map (expand fs (past s)) (fields word)) sys s.
Proof. reflexivity. Qed.

(** The words an unquoted variable expands to: computed when the
    variable is plain, any list of words otherwise. *)
Ltac chronyd_words :=
  rewrite eval_unquoted; cbv beta iota delta [past];
  first
    [ rewrite expansion_of_path by first [assumption | reflexivity | discriminate]
    | rewrite expansion_in_container by assumption
    | rewrite expansion_on_host by assumption
    | match goal with
      | |- context [flat_map (expand ?fs ?h) (fields ?w)] =>
          let ws := fresh "ws" in
          generalize (flat_map (expand fs h) (fields w)); intros ws
      end ].



(** A configuration that is already there is never overwritten: when the
    test that no file is at the configuration's path fails, no run of
    the launcher calls [cp], whatever the common directory is called. *)
Theorem existing_configuration_is_not_overwritten
    (sys : system) (fs : files) (v : vars) :
  plain (SNAP v) = true ->
  plain (SNAP_DATA v) = true ->
  (forall h, status (sys h (cmd ["["; "!"; "-e"; chronyd.conf v; "]"])) <> 0%Z) ->
  Forall (not_called ["cp"]) (history_of (run sys (chronyd.main fs v))).
Proof.
  intros HS HD Hkept.
  assert (Hno : forall h st out,
             sys h (cmd ["["; "!"; "-e"; chronyd.conf v; "]"]) = mkReply st out ->
             Z.eqb st 0 = true -> False).
  { intros h st out Hsys Hst. apply (Hkept h). rewrite Hsys. now apply Z.eqb_eq. }
  unfold run, chronyd.main, test, simple, if_then. cbv zeta.
  fold (chronyd.conf v).
  repeat
    (first
       [ rewrite eval_assoc
       | rewrite eval_ret
       | rewrite eval_true
       | chronyd_words
       | rewrite eval_call; cbv beta iota delta [past last];
         match goal with
         | |- context [sys ?h ?c] =>
             let st := fresh "st" in
             let out := fresh "out" in
             let Hsys := fresh "Hsys" in
             let Hst := fresh "Hst" in
             destruct (sys h c) as [st out] eqn:Hsys;
             cbv beta iota delta [status output];
             destruct (Z.eqb st 0) eqn:Hst;
             [ try (exfalso; exact (Hno _ _ _ Hsys Hst));
               apply Z.eqb_eq in Hst; subst st
             | ];
             clear Hsys
         end
       | rewrite eval_errexit; cbv beta iota delta [past last];
         first [ rewrite Z.eqb_refl
               | match goal with Hst : Z.eqb ?st 0 = false |- _ => rewrite Hst end ]
       | match goal with
         | |- context [errexit sys ?s] =>
             unfold errexit; cbv beta iota delta [past last];
             first [ rewrite Z.eqb_refl
                   | match goal with Hst : Z.eqb ?st 0 = false |- _ => rewrite Hst end ]
         | |- context [true_ sys ?s] => unfold true_; cbv beta iota delta [past last]
         end ];
     cbv beta iota).
  all: cbn [history_of past app exec].
  all: repeat (apply Forall_cons;
               [ unfold not_called; cbn; intros [Hhead|[]];
                 first [ discriminate Hhead
                       | symmetry in Hhead; revert Hhead; apply append_longer; cbn; lia ] |]);
       apply Forall_nil.
Qed.

(** ** The scripts on concrete systems *)

Import machines.

(** Finds an event or a command in a history that evaluates. *)
Ltac found := vm_compute; repeat (first [left; reflexivity | right]).

Lemma remove_on_a_quiet_system :
  String.eqb "remove" "purge" = false /\
  history_of (run quiet (postrm.main "remove"))
    = [Ran (cmd ["rm"; "-f"; "/etc/rsyslog.d/99-maas.conf"]) 0] /\
  exit_status (run quiet (postrm.main "remove")) = Some 0%Z.
Proof.
  split; [reflexivity |].
  apply (remove_keeps_the_account_and_the_data quiet "remove"). discriminate.
Defined.

Lemma purge_stops_at_the_keyring :
  history_of (run gnupg_busy (postrm.main "purge"))
    = ([Ran (cmd_to ["getent"; "passwd"; "maas"] "/dev/null") 0;
        Ran (cmd ["deluser"; "maas"]) 0;
        Ran (cmd ["delgroup"; "maas"]) 0;
        Ran (cmd ["rm"; "-f"; "/var/log/maas/maas.log"]) 0;
        Ran (cmd ["rm"; "-rf"; "/var/log/maas/rsyslog"]) 0]
       ++ Ran (cmd ["rm"; "-rf"; "/var/lib/maas/gnupg"]) 1 :: [])%list /\
  postrm_facts.is_rm (cmd ["rm"; "-rf"; "/var/lib/maas/gnupg"]) = true /\
  (@nil event = [] /\
   exit_status (run gnupg_busy (postrm.main "purge")) = Some 1%Z).
Proof.
  split; [reflexivity | split; [reflexivity |]].
  apply (nothing_runs_after_a_failed_removal gnupg_busy "purge"
           [Ran (cmd_to ["getent"; "passwd"; "maas"] "/dev/null") 0;
            Ran (cmd ["deluser"; "maas"]) 0;
            Ran (cmd ["delgroup"; "maas"]) 0;
            Ran (cmd ["rm"; "-f"; "/var/log/maas/maas.log"]) 0;
            Ran (cmd ["rm"; "-rf"; "/var/log/maas/rsyslog"]) 0]
           [] (cmd ["rm"; "-rf"; "/var/lib/maas/gnupg"]) 1);
    [reflexivity | reflexivity | discriminate].
Defined.

Lemma purge_with_an_account_in_use :
  In (Ran (cmd ["deluser"; "maas"]) 1)
     (history_of (run account_in_use (postrm.main "purge"))) /\
  In (Ran (cmd ["delgroup"; "maas"]) 1)
     (history_of (run account_in_use (postrm.main "purge"))) /\
  exit_status (run account_in_use (postrm.main "purge")) = Some 0%Z /\
  filter postrm_facts.is_rm
    (commands (history_of (run account_in_use (postrm.main "purge"))))
    = postrm.removals.
Proof.
  split; [found | split; [found |]].
  apply (purge_succeeds_whatever_the_account_commands_return account_in_use).
  intros h [[|w ws] r] Hrm; [discriminate Hrm |].
  cbn in Hrm. apply String.eqb_eq in Hrm. subst w. reflexivity.
Defined.

Lemma migration_starts_on_a_database_at_10 :
  (exists before,
      history_of (run (database_at "10") (hook.main no_match maas_vars))
      = (before ++ [Ran (hook.snapctl_start maas_vars) 0;
                    Replaced (hook.migrate maas_vars)])%list) /\
  Forall succeeded_or_exempt (history_of (run (database_at "10") (hook.main no_match maas_vars))).
Proof.
  apply (migration_starts_only_after_success (database_at "10") no_match maas_vars).
  vm_compute. reflexivity.
Defined.

Lemma upgrade_removes_the_scratch_database :
  In (Ran (cmd ["rm"; "-rf"; hook.data_10 maas_vars]) 0)
     (history_of (run (database_at "9.5") (hook.main no_match maas_vars))) /\
  head (cmd ["rm"; "-rf"; hook.data_10 maas_vars]) = "rm" /\
  (cmd ["rm"; "-rf"; hook.data_10 maas_vars] = cmd ["rm"; "-rf"; hook.data_10 maas_vars] \/
   cmd ["rm"; "-rf"; hook.data_10 maas_vars] = cmd ["rm"; "-rf"; hook.pg_upgrade_dir maas_vars]).
Proof.
  split; [found | split; [reflexivity |]].
  apply (hook_removes_only_its_scratch_directories (database_at "9.5") no_match maas_vars _ 0);
    [found | reflexivity].
Defined.

Lemma two_databases_on_a_quiet_system :
  status (quiet [] (cmd ["["; "-d"; SNAP_COMMON maas_vars ++ "/db"; "]"])) = 0%Z /\
  status (quiet [] (cmd ["["; "-d"; hook.data maas_vars; "]"])) = 0%Z /\
  exists code h,
    run quiet (hook.main no_match maas_vars) = Stopped code h /\
    code <> 0%Z /\
    Forall (not_called ["mv"; "snapctl"]) h.
Proof.
  split; [reflexivity | split; [reflexivity |]].
  apply (hook_refuses_to_merge_two_databases quiet no_match maas_vars); intros h; reflexivity.
Defined.

Lemma version_11_stops_the_hook :
  In (cmd ["cat"; hook.data maas_vars ++ "/PG_VERSION"])
     (commands (history_of (run (database_at "11") (hook.main no_match maas_vars)))) /\
  exists code h,
    run (database_at "11") (hook.main no_match maas_vars) = Stopped code h /\
    code <> 0%Z /\
    Forall (not_called ["snapctl"]) h.
Proof.
  split; [found |].
  apply (unknown_database_version_stops_the_hook (database_at "11") no_match maas_vars);
    [intros h; split; vm_compute; discriminate | found].
Defined.

Lemma version_10_is_left_alone :
  chomp (output (database_at "10" [] (cmd ["cat"; hook.data maas_vars ++ "/PG_VERSION"])))
    = "10" /\
  Forall (left_alone maas_vars)
    (history_of (run (database_at "10") (hook.main no_match maas_vars))).
Proof.
  split; [reflexivity |].
  apply (database_at_version_10_is_left_alone (database_at "10") no_match maas_vars).
  intros h. reflexivity.
Defined.

Lemma upgrade_from_9_5_moves_the_new_database :
  In (Ran (move_into_place maas_vars) 0)
     (history_of (run (database_at "9.5") (hook.main no_match maas_vars))) /\
  upgraded maas_vars (history_of (run (database_at "9.5") (hook.main no_match maas_vars))).
Proof.
  split; [found |].
  apply (new_database_replaces_the_old_only_after_the_upgrade
           (database_at "9.5") no_match maas_vars 0).
  found.
Defined.

(** With a segment of shared memory left by the unconfined snap, the
    hook hands the segment's name to [chown], in the place of the
    pattern. *)
Lemma chown_gets_the_matching_files :
  In (Ran (cmd ["chown"; "-R"; "snap_daemon:snap_daemon"; "/dev/shm/snap.maas.lock.shm"]) 0)
     (history_of (run with_shared_memory (hook.main one_segment maas_vars))).
Proof. found. Qed.


Lemma configured_snap_keeps_its_configuration :
  plain (SNAP bracket_vars) = true /\
  plain (SNAP_DATA bracket_vars) = true /\
  status (configured [] (cmd ["["; "!"; "-e"; chronyd.conf bracket_vars; "]"])) = 1%Z /\
  In (cmd ["mkdir"; "-p"; "/var/snap/maas/common[1]/log/ntpstats"])
     (commands (history_of (run configured (chronyd.main no_match bracket_vars)))) /\
  Forall (not_called ["cp"])
    (history_of (run configured (chronyd.main no_match bracket_vars))).
Proof.
  split; [reflexivity | split; [reflexivity | split; [reflexivity | split; [found |]]]].
  apply (existing_configuration_is_not_overwritten configured no_match bracket_vars);
    [reflexivity | reflexivity | intros h; vm_compute; discriminate].
Defined.
